(** * atom-package-sync: the sync reconciliation engine

    A shallow embedding of [lib/atom-package-sync.js] (class [AtomPackageSync])
    and the properties of its sync pass, action handlers and auto-poll timer.

    The JavaScript code is asynchronous: it is written with promises
    ([new Promise], [.then], [.catch]) and with the callback-style
    [async.eachSeries].  Both are embedded in continuation-passing style over a
    small tree of operations ([Task]): a promise is a computation that is
    handed a [resolve] and a [reject] continuation, and a promise that never
    settles is a computation that calls neither. *)

From Stdlib Require Import List String ZArith Arith Lia.
Import ListNotations.
Open Scope string_scope.
Open Scope list_scope.

(** ** Data model *)

Definition Pkg := string.
Definition PackageSettings := string.
Definition LastUpdate := Z.
Definition Err := string.
Definition Files := list (string * string).

(** Modelled from the spec: the [SyncStatus] enumeration is declared in
    [lib/get-sync-changes.js], which is not part of the sources at hand.  The
    eight names are the ones [sync] switches on; [OtherStatus] stands for any
    other value a change record may carry in its [status] field. *)
Inductive SyncStatus : Type :=
| FirstTimeConnect
| AddPackagesFromClient
| RemovePackagesFromClient
| SettingsChangedFromClient
| AddPackagesFromServer
| RemovePackagesFromServer
| PackageSettingsChangedFromServer
| NewAtomInstance
| OtherStatus (tag : string).

(** A change record, with the four fields [sync] reads. *)
Record Change : Type := mkChange {
  status : SyncStatus;
  packages : list Pkg;
  packageSettings : PackageSettings;
  lastUpdate : LastUpdate
}.

(** [{ files: files }], the object [backup] sends to the server. *)
Record Settings : Type := mkSettings { files : Files }.

(** What [fetchAtomSettingsInfo] resolves with. *)
Record AtomSettingsInfo : Type := mkInfo { info_lastUpdate : LastUpdate }.

(** What [saveAtomSettings] resolves with. *)
Record SaveResult : Type := mkSaveResult {
  success : bool;
  result_lastUpdate : LastUpdate
}.

(** The value held by [this.autocheckTimer]: never assigned ([undefined]),
    [false] after [stopAutoUpdateCheck], or the handle [setInterval] returned. *)
Inductive TimerSlot : Type :=
| JsUndefined
| JsFalse
| TimerHandle (id : positive).

Definition truthy (v : TimerSlot) : bool :=
  match v with
  | TimerHandle _ => true
  | _ => false
  end.

(** The state the engine owns ([_stateManager.syncLock], [autocheckTimer])
    together with the interval timers of the JavaScript runtime: [intervals]
    lists the live recurring timers as (handle, delay); every one of them
    calls [sync]. *)
Record Engine : Type := mkEngine {
  syncLock : bool;
  autocheckTimer : TimerSlot;
  intervals : list (positive * Z);
  nextHandle : positive
}.

Definition set_syncLock (b : bool) (e : Engine) : Engine :=
  mkEngine b (autocheckTimer e) (intervals e) (nextHandle e).

Definition set_autocheckTimer (v : TimerSlot) (e : Engine) : Engine :=
  mkEngine (syncLock e) v (intervals e) (nextHandle e).

(** [setInterval(cb, delay)]: registers a recurring timer under a fresh
    handle and returns the handle. *)
Definition setInterval (delay : Z) (e : Engine) : positive * Engine :=
  (nextHandle e,
   mkEngine (syncLock e) (autocheckTimer e)
            (intervals e ++ [(nextHandle e, delay)])
            (Pos.succ (nextHandle e))).

(** [clearInterval(v)]: cancels the timer with that handle; any other value
    ([undefined], [false]) names no timer. *)
Definition clearInterval (v : TimerSlot) (e : Engine) : Engine :=
  match v with
  | TimerHandle id =>
      mkEngine (syncLock e) (autocheckTimer e)
               (filter (fun t => negb (Pos.eqb (fst t) id)) (intervals e))
               (nextHandle e)
  | _ => e
  end.

(** ** Auto-poll timer *)

(** [setupAutoUpdateCheck]: start auto-sync if it's not already started. *)
Definition setupAutoUpdateCheck (this : Engine) : Engine :=
  if truthy (autocheckTimer this) then this
  else
    let (handle, this') := setInterval 60000 this in
    set_autocheckTimer (TimerHandle handle) this'.

(** [stopAutoUpdateCheck]: stop auto-sync. *)
Definition stopAutoUpdateCheck (this : Engine) : Engine :=
  set_autocheckTimer JsFalse (clearInterval (autocheckTimer this) this).

(** [stop] (called by [deactivate]). *)
Definition stop (this : Engine) : Engine := stopAutoUpdateCheck this.

(** ** Operations on the collaborators *)

(** Every call the engine makes outside itself.  The first five return a
    promise (they are the suspension points of a pass) which is taken to
    settle, one way or the other; the others are synchronous and are taken to
    return normally. *)
Inductive Op : Type :=
| GetSyncChanges
| InstallMissingPackages (pkgs : list Pkg)
| UninstallPackages (pkgs : list Pkg)
| FetchAtomSettingsInfo
| SaveAtomSettings (settings : Settings)
| GetFiles
| ApplyPackageSettings (path : string) (settings : PackageSettings)
| SetLastUpdate (value : LastUpdate)
| AddSuccess (message : string)
| ConsoleLog (message : string)
| ConsoleLogChanges (message : string) (changes : list Change)
| ConsoleError (message : string) (err : Err).

(** How a promise returned by a collaborator settles. *)
Inductive Outcome (A : Type) : Type :=
| Fulfilled (a : A)
| Failed (e : Err).
Arguments Fulfilled {A} a.
Arguments Failed {A} e.

Definition Resp (c : Op) : Type :=
  match c with
  | GetSyncChanges => Outcome (list Change)
  | InstallMissingPackages _ => Outcome unit
  | UninstallPackages _ => Outcome unit
  | FetchAtomSettingsInfo => Outcome AtomSettingsInfo
  | SaveAtomSettings _ => Outcome SaveResult
  | GetFiles => Files
  | _ => unit
  end.

Definition suspends (c : Op) : bool :=
  match c with
  | GetSyncChanges | InstallMissingPackages _ | UninstallPackages _
  | FetchAtomSettingsInfo | SaveAtomSettings _ => true
  | _ => false
  end.

(** The collaborators ([get-sync-changes], [AtomSettingsManager],
    [QuantalApi], the notification and console objects) are an interface: a
    state of their own and the answer to each call. *)
Class Collaborators : Type := {
  World : Type;
  perform : forall c : Op, World -> Resp c * World
}.

(** ** Tasks and promises *)

(** A thread of control of the program: it ends ([Halt]), ends with an answer
    ([Ret], used to observe how a promise settles), calls a collaborator, or
    reads or updates the engine's own state. *)
Inductive Task (R : Type) : Type :=
| Ret (r : R)
| Halt
| Call (c : Op) (k : Resp c -> Task R)
| Read (k : Engine -> Task R)
| Write (f : Engine -> Engine) (k : Task R).
Arguments Ret {R} r.
Arguments Halt {R}.
Arguments Call {R} c k.
Arguments Read {R} k.
Arguments Write {R} f k.

(** A promise of an [A]: given what to do when it is resolved and when it is
    rejected, the thread that settles it. *)
Definition Promise (A R : Type) : Type := (A -> Task R) -> (Err -> Task R) -> Task R.

(** [p.then(f)]: [f] runs when [p] is resolved and its promise takes over; a
    rejection of [p] passes through. *)
Definition then_ {A B R} (p : Promise A R) (f : A -> Promise B R) : Promise B R :=
  fun resolve reject => p (fun a => f a resolve reject) reject.

(** [p.catch(h)]: [h] runs when [p] is rejected; a resolution passes
    through. *)
Definition catch_ {A R} (p : Promise A R) (h : Err -> Promise A R) : Promise A R :=
  fun resolve reject => p resolve (fun e => h e resolve reject).

(** A callback that throws: [throw err]. *)
Definition throw {A R} (err : Err) : Promise A R := fun _ reject => reject err.

(** A promise used as a statement: nothing is attached to it. *)
Definition discard {A R} (p : Promise A R) : Task R :=
  p (fun _ => Halt) (fun _ => Halt).

(** A callback whose last statement calls a continuation from an enclosing
    scope ([resolve()], [reject(err)], [next()]) and then returns.  In this
    program the promise derived from such a callback is always discarded, so
    the callback is embedded as the jump to that continuation. *)
Definition jump {B R} (t : Task R) : Promise B R := fun _ _ => t.

(** A synchronous call whose result is not used, followed by [k]. *)
Definition exec {R} (c : Op) (k : Task R) : Task R := Call c (fun _ => k).

(** The promise a collaborator returned settles: the matching continuation
    takes over. *)
Definition answered {A R} (o : Outcome A) : Promise A R :=
  fun resolve reject =>
    match o with
    | Fulfilled a => resolve a
    | Failed e => reject e
    end.

(** The asynchronous collaborator calls, as promises. *)
Definition getSyncChanges {R} : Promise (list Change) R :=
  fun resolve reject => Call GetSyncChanges (fun o => answered o resolve reject).

Definition installMissingPackages {R} (pkgs : list Pkg) : Promise unit R :=
  fun resolve reject =>
    Call (InstallMissingPackages pkgs) (fun o => answered o resolve reject).

Definition uninstallPackages {R} (pkgs : list Pkg) : Promise unit R :=
  fun resolve reject =>
    Call (UninstallPackages pkgs) (fun o => answered o resolve reject).

Definition fetchAtomSettingsInfo {R} : Promise AtomSettingsInfo R :=
  fun resolve reject => Call FetchAtomSettingsInfo (fun o => answered o resolve reject).

Definition saveAtomSettings {R} (settings : Settings) : Promise SaveResult R :=
  fun resolve reject =>
    Call (SaveAtomSettings settings) (fun o => answered o resolve reject).

(** [atomSettingsInfo => this._atomSettingsManager.setLastUpdate(...)]: the
    synchronous call, whose result the callback returns. *)
Definition setLastUpdate {R} (v : LastUpdate) : Promise unit R :=
  fun resolve _ => Call (SetLastUpdate v) (fun r => resolve r).

(** [async.eachSeries(coll, iteratee, callback)] of the [async] package the
    program requires, as that package documents it: the iteratee runs on one
    item at a time and is handed a [next] callback; [next()] moves on to the
    following item, [next(err)] calls [callback(err)] at once, and
    [callback()] is called with no error after the last item.  An iteratee
    that never calls [next] leaves the series where it is. *)
Fixpoint eachSeries {X R} (coll : list X)
    (iteratee : X -> (option Err -> Task R) -> Task R)
    (callback : option Err -> Task R) : Task R :=
  match coll with
  | [] => callback None
  | item :: rest =>
      iteratee item (fun err =>
        match err with
        | Some e => callback (Some e)
        | None => eachSeries rest iteratee callback
        end)
  end.

(** ** The action handlers *)

(** [applyPackageSettings(packageSettings)]. *)
Definition applyPackageSettings {R} (settings : PackageSettings) : Promise unit R :=
  fun resolve reject =>
    exec (ApplyPackageSettings "" settings)
      (then_ fetchAtomSettingsInfo
             (fun atomSettingsInfo => setLastUpdate (info_lastUpdate atomSettingsInfo))
             resolve reject).

(** [handlePackageAdd(packages)]. *)
Definition handlePackageAdd {R} (pkgs : list Pkg) : Promise unit R :=
  then_ (then_ (installMissingPackages pkgs)
               (fun _ => fetchAtomSettingsInfo))
        (fun atomSettingsInfo => setLastUpdate (info_lastUpdate atomSettingsInfo)).

(** [handlePackageRemove(packages)]. *)
Definition handlePackageRemove {R} (pkgs : list Pkg) : Promise unit R :=
  then_ (then_ (uninstallPackages pkgs)
               (fun _ => fetchAtomSettingsInfo))
        (fun atomSettingsInfo => setLastUpdate (info_lastUpdate atomSettingsInfo)).

(** [backup()]. *)
Definition backup {R} : Promise unit R :=
  fun resolve reject =>
    Call GetFiles (fun files =>
    let settings := mkSettings files in
    discard
      (catch_
         (then_ (saveAtomSettings settings)
                (fun result =>
                   jump (B := unit)
                        (if success result
                         then exec (SetLastUpdate (result_lastUpdate result)) (resolve tt)
                         else resolve tt)))
         (fun err =>
            jump (exec (ConsoleError "atom-package-sync error backing up data: " err)
                       (reject err))))).

(** ** The sync pass *)

Definition SYNC_SUCCESS_MESSAGE : string := "Packages synced successfully".

(** A JavaScript call that passes one argument more than the callee declares:
    the callee binds its own parameter and the extra argument is dropped. *)
Definition call_with_extra {A B C} (f : A -> C) (a : A) (extra : B) : C := f a.

(** The [switch (change.status)] of [sync]: the function assigned to [func],
    or [None] when no case matches and [func] stays undefined. *)
Definition dispatch {R} (change : Change) : option (unit -> Promise unit R) :=
  match status change with
  | FirstTimeConnect => Some (fun _ => backup)
  | AddPackagesFromClient
  | RemovePackagesFromClient
  | SettingsChangedFromClient => Some (fun _ => backup)
  | AddPackagesFromServer => Some (fun _ => handlePackageAdd (packages change))
  | RemovePackagesFromServer => Some (fun _ => handlePackageRemove (packages change))
  | PackageSettingsChangedFromServer =>
      Some (fun _ => call_with_extra applyPackageSettings
                       (packageSettings change) (lastUpdate change))
  | NewAtomInstance =>
      Some (fun _ =>
              then_ (then_ (handlePackageAdd (packages change))
                           (fun _ => applyPackageSettings (packageSettings change)))
                    (fun _ => backup))
  | OtherStatus _ => None
  end.

(** The iteratee handed to [async.eachSeries]. *)
Definition iteratee {R} (change : Change) (next : option Err -> Task R) : Task R :=
  match dispatch change with
  | Some func =>
      discard (catch_ (then_ (func tt) (fun _ => jump (B := unit) (next None)))
                      (fun err => throw err))
  | None => Halt
  end.

(** The promise built in the first [.then] of [sync]: it logs the changes,
    runs the handlers in series and resolves with [changes.length]. *)
Definition applyChanges {R} (changes : list Change) : Promise nat R :=
  fun resolve reject =>
    (if (0 <? List.length changes)%nat
     then exec (ConsoleLogChanges "Changes: " changes)
     else fun k => k)
      (eachSeries changes iteratee
         (fun err =>
            match err with
            | Some e => reject e
            | None => resolve (List.length changes)
            end)).

(** [sync()]. *)
Definition sync {R} : Task R :=
  discard (A := unit) (fun resolve reject =>
    Read (fun this =>
    if syncLock this then resolve tt
    else
      exec (ConsoleLog "Sync lock")
      (Write (set_syncLock true)
      (discard
         (catch_
            (then_
               (then_
                  (then_ getSyncChanges (fun changes => applyChanges changes))
                  (fun nbOfChanges => fun resolve' _ =>
                     (if (0 <? nbOfChanges)%nat
                      then exec (AddSuccess SYNC_SUCCESS_MESSAGE)
                      else fun k => k)
                       (Write setupAutoUpdateCheck (resolve' tt))))
               (fun _ =>
                  jump (B := unit)
                       (exec (ConsoleLog "Unlock sync")
                             (Write (set_syncLock false) (resolve tt)))))
            (fun err => fun resolve' _ =>
               exec (ConsoleLog "Error Unlock sync")
                    (Write (set_syncLock false) (resolve' tt)))))))).

(** ** Running a task *)

(** How a promise has settled when the thread that settles it has come to its
    end; [Pending]: neither [resolve] nor [reject] was called, and nothing is
    left that could call them. *)
Inductive Settled (A : Type) : Type :=
| Resolved (a : A)
| Rejected (e : Err)
| Pending.
Arguments Resolved {A} a.
Arguments Rejected {A} e.
Arguments Pending {A}.

Section Semantics.

Context `{Collaborators}.

(** The engine, the collaborators, and the calls made so far, oldest first. *)
Record State : Type := mkState {
  engine : Engine;
  world : World;
  trace : list Op
}.

(** The call [c]: the collaborators answer and the call is recorded. *)
Definition call (c : Op) (s : State) : Resp c * State :=
  let (r, w) := perform c (world s) in
  (r, mkState (engine s) w (trace s ++ [c])).

Definition update (f : Engine -> Engine) (s : State) : State :=
  mkState (f (engine s)) (world s) (trace s).

(** A task run to its end, every promise of the collaborators settling as
    [perform] says. *)
Fixpoint run {R} (t : Task R) (s : State) : option R * State :=
  match t with
  | Ret r => (Some r, s)
  | Halt => (None, s)
  | Call c k => let (r, s') := call c s in run (k r) s'
  | Read k => run (k (engine s)) s
  | Write f k => run k (update f s)
  end.

(** How the promise [p], started in [s], settles, and the state then. *)
Definition settle {A} (p : Promise A (Settled A)) (s : State) : Settled A * State :=
  match run (p (fun a => Ret (Resolved a)) (fun e => Ret (Rejected e))) s with
  | (Some r, s') => (r, s')
  | (None, s') => (Pending, s')
  end.

(** The calls [p] makes when started in [s]. *)
Definition calls_of {A} (p : Promise A (Settled A)) (s : State) : list Op :=
  skipn (List.length (trace s)) (trace (snd (settle p s))).

(** ** The event loop *)

(** A task run up to its next suspension point: the state reached and, when
    the thread is waiting for a promise of a collaborator, what is left of it. *)
Fixpoint advance {R} (t : Task R) (s : State) : State * option (Task R) :=
  match t with
  | Ret _ => (s, None)
  | Halt => (s, None)
  | Call c k =>
      if suspends c then (s, Some (Call c k))
      else let (r, s') := call c s in advance (k r) s'
  | Read k => advance (k (engine s)) s
  | Write f k => advance k (update f s)
  end.

(** What can happen to a running instance: the sync command (or [start]) calls
    [sync]; an interval timer fires and calls [sync]; the package is
    deactivated; the promise the [i]-th waiting thread waits for settles. *)
Inductive Event : Type :=
| Command
| Tick (id : positive)
| Deactivate
| Complete (i : nat).

(** The instance between two events: its state and the threads waiting for a
    collaborator. *)
Record System : Type := mkSystem {
  state : State;
  waiting : list (Task Empty_set)
}.

Definition spawn (t : Task Empty_set) (sys : System) : System :=
  let (s', rest) := advance t (state sys) in
  mkSystem s' (waiting sys ++ match rest with Some t' => [t'] | None => [] end).

Definition remove_nth {X} (i : nat) (l : list X) : list X :=
  firstn i l ++ skipn (S i) l.

Definition step (sys : System) (ev : Event) : System :=
  match ev with
  | Command => spawn sync sys
  | Tick id =>
      if existsb (fun t => Pos.eqb (fst t) id) (intervals (engine (state sys)))
      then spawn sync sys
      else sys
  | Deactivate => mkSystem (update stop (state sys)) (waiting sys)
  | Complete i =>
      match nth_error (waiting sys) i with
      | Some (Call c k) =>
          let (r, s') := call c (state sys) in
          spawn (k r) (mkSystem s' (remove_nth i (waiting sys)))
      | _ => sys
      end
  end.

Definition steps (sys : System) (evs : list Event) : System :=
  fold_left step evs sys.

End Semantics.

(** An instance right after activation: lock free, timer never set. *)
Definition fresh_engine : Engine := mkEngine false JsUndefined [] 1%positive.

(** ** A concrete set of collaborators

    Scripted collaborators, to run the engine on: the change detector and the
    server answer what the script says, the local side keeps the installed
    packages, the settings and the stored [lastUpdate]. *)
Module Scripted.

Record Store : Type := mkStore {
  detected : Outcome (list Change);
  fetched : Outcome AtomSettingsInfo;
  saved : Outcome SaveResult;
  install_error : option Err;
  installed : list Pkg;
  local_settings : PackageSettings;
  local_files : Files;
  local_lastUpdate : LastUpdate;
  notifications : list string
}.

Definition missing (pkgs have : list Pkg) : list Pkg :=
  filter (fun p => negb (existsb (String.eqb p) have)) pkgs.

Definition answer (c : Op) (w : Store) : Resp c * Store :=
  match c return Resp c * Store with
  | GetSyncChanges => (detected w, w)
  | InstallMissingPackages pkgs =>
      match install_error w with
      | Some e => (Failed e, w)
      | None =>
          (Fulfilled tt,
           mkStore (detected w) (fetched w) (saved w) None
                   (installed w ++ missing pkgs (installed w))
                   (local_settings w) (local_files w) (local_lastUpdate w)
                   (notifications w))
      end
  | UninstallPackages pkgs =>
      match install_error w with
      | Some e => (Failed e, w)
      | None =>
          (Fulfilled tt,
           mkStore (detected w) (fetched w) (saved w) None
                   (missing (installed w) pkgs)
                   (local_settings w) (local_files w) (local_lastUpdate w)
                   (notifications w))
      end
  | FetchAtomSettingsInfo => (fetched w, w)
  | SaveAtomSettings _ => (saved w, w)
  | GetFiles => (local_files w, w)
  | ApplyPackageSettings _ settings =>
      (tt, mkStore (detected w) (fetched w) (saved w) (install_error w)
                   (installed w) settings (local_files w) (local_lastUpdate w)
                   (notifications w))
  | SetLastUpdate v =>
      (tt, mkStore (detected w) (fetched w) (saved w) (install_error w)
                   (installed w) (local_settings w) (local_files w) v
                   (notifications w))
  | AddSuccess m =>
      (tt, mkStore (detected w) (fetched w) (saved w) (install_error w)
                   (installed w) (local_settings w) (local_files w)
                   (local_lastUpdate w) (notifications w ++ [m]))
  | ConsoleLog _ => (tt, w)
  | ConsoleLogChanges _ _ => (tt, w)
  | ConsoleError _ _ => (tt, w)
  end.

#[export] Instance collaborators : Collaborators :=
  {| World := Store; perform := answer |}.

(** A store where the server holds [lastUpdate = 7] and every call succeeds. *)
Definition healthy (changes : list Change) : Store :=
  mkStore (Fulfilled changes) (Fulfilled (mkInfo 7%Z))
          (Fulfilled (mkSaveResult true 7%Z)) None
          ["linter"] "{}" [("config.cson", "*")] 3%Z [].

(** The same store with a server that rejects every save. *)
Definition save_fails (changes : list Change) : Store :=
  mkStore (Fulfilled changes) (Fulfilled (mkInfo 7%Z))
          (Failed "503") None
          ["linter"] "{}" [("config.cson", "*")] 3%Z [].

(** The same store with a server that answers a save with [success: false]. *)
Definition save_refused (changes : list Change) : Store :=
  mkStore (Fulfilled changes) (Fulfilled (mkInfo 7%Z))
          (Fulfilled (mkSaveResult false 9%Z)) None
          ["linter"] "{}" [("config.cson", "*")] 3%Z [].

(** The same store with a change detector that fails. *)
Definition detection_fails : Store :=
  mkStore (Failed "offline") (Fulfilled (mkInfo 7%Z))
          (Fulfilled (mkSaveResult true 7%Z)) None
          ["linter"] "{}" [("config.cson", "*")] 3%Z [].

Definition boot (w : Store) : State := mkState fresh_engine w [].

Definition change (st : SyncStatus) : Change := mkChange st ["minimap"] "{tab:2}" 5%Z.

End Scripted.

(** ** Derived notions used in the statements *)

Section Derived.

Context `{Collaborators}.

(** What a thread does once the promise it waits for has settled. *)
Definition resume {A R} (x : Settled A * State)
    (resolve : A -> Task R) (reject : Err -> Task R) : option R * State :=
  match x with
  | (Resolved a, s') => run (resolve a) s'
  | (Rejected e, s') => run (reject e) s'
  | (Pending, s') => (None, s')
  end.

(** The promise [func()] for a change record, when the switch assigns [func]. *)
Definition handler_of (change : Change) : option (Promise unit (Settled unit)) :=
  match dispatch change with
  | Some func => Some (func tt)
  | None => None
  end.

(** Handlers run one after the other, each started in the state the one
    before left when it resolved.  [true]: every record had a handler and every
    handler resolved; [false]: the series stopped at the first record without
    a handler or whose handler did not resolve, in the state reached there. *)
Fixpoint in_series (changes : list Change) (s : State) : bool * State :=
  match changes with
  | [] => (true, s)
  | change :: rest =>
      match handler_of change with
      | None => (false, s)
      | Some h =>
          match settle h s with
          | (Resolved _, s') => in_series rest s'
          | (_, s') => (false, s')
          end
      end
  end.

(** The state once [sync] has logged and taken the lock. *)
Definition locked (s : State) : State :=
  update (set_syncLock true) (snd (call (ConsoleLog "Sync lock") s)).

(** The state once the detected changes have been logged (if there are any). *)
Definition logged (changes : list Change) (s : State) : State :=
  if (0 <? List.length changes)%nat
  then snd (call (ConsoleLogChanges "Changes: " changes) s)
  else s.

(** The state once a pass over [n] records has emitted its notification (if
    it emits one). *)
Definition notified (n : nat) (s : State) : State :=
  if (0 <? n)%nat
  then snd (call (AddSuccess SYNC_SUCCESS_MESSAGE) s)
  else s.

(** The answer of the server to the save [backup] sends from [s]. *)
Definition save_reply (s : State) : Outcome SaveResult :=
  let (files, s1) := call GetFiles s in
  fst (call (SaveAtomSettings (mkSettings files)) s1).

(** "Every call to backup either completes having persisted the
    remote-returned lastUpdate into the local store, or fails with the error
    of the remote save." *)
Definition backup_all_or_nothing (s : State) : Prop :=
  (fst (settle backup s) = Resolved tt /\
   exists result, save_reply s = Fulfilled result /\
                  In (SetLastUpdate (result_lastUpdate result)) (calls_of backup s))
  \/
  (exists e, save_reply s = Failed e /\ fst (settle backup s) = Rejected e).

(** "On a pass in which all handlers succeed, the notification is emitted and
    the timer is armed if and only if the number of records is greater than
    zero; with no record, no notification and the timer is not newly armed." *)
Definition arms_only_on_changes (s : State) : Prop :=
  forall changes s2 s4,
    syncLock (engine s) = false ->
    call GetSyncChanges (locked s) = (Fulfilled changes, s2) ->
    in_series changes (logged changes s2) = (true, s4) ->
    let final := snd (run (R := unit) sync s) in
    let emitted := skipn (List.length (trace s4)) (trace final) in
    if (0 <? List.length changes)%nat
    then In (AddSuccess SYNC_SUCCESS_MESSAGE) emitted /\
         truthy (autocheckTimer (engine final)) = true
    else ~ In (AddSuccess SYNC_SUCCESS_MESSAGE) emitted /\
         autocheckTimer (engine final) = autocheckTimer (engine s) /\
         intervals (engine final) = intervals (engine s).

(** In every run of [t] from an engine state [e], the lock is held each time
    the thread waits for a collaborator; while it waits, other events may
    change the engine but leave the lock held. *)
Fixpoint keeps_lock {R} (t : Task R) (e : Engine) : Prop :=
  match t with
  | Ret _ => True
  | Halt => True
  | Call c k =>
      if suspends c
      then syncLock e = true /\
           forall r e', syncLock e' = true -> keeps_lock (k r) e'
      else forall r, keeps_lock (k r) e
  | Read k => keeps_lock (k e) e
  | Write f k => keeps_lock k (f e)
  end.

(** A promise that keeps the lock as long as its continuations do. *)
Definition lock_safe {A R} (p : Promise A R) : Prop :=
  forall resolve reject e,
    syncLock e = true ->
    (forall a e', syncLock e' = true -> keeps_lock (resolve a) e') ->
    (forall err e', syncLock e' = true -> keeps_lock (reject err) e') ->
    keeps_lock (p resolve reject) e.

(** A waiting thread of a pass: suspended on a collaborator, and keeping the
    lock when it is resumed. *)
Definition pass_thread (t : Task Empty_set) : Prop :=
  match t with
  | Call c k =>
      suspends c = true /\
      forall r e', syncLock e' = true -> keeps_lock (k r) e'
  | _ => False
  end.

(** The invariant of the event loop: a waiting thread is a pass that holds
    the lock, and there is at most one. *)
Definition one_pass (sys : System) : Prop :=
  waiting sys = [] \/
  exists t, waiting sys = [t] /\ pass_thread t /\
            syncLock (engine (state sys)) = true.

(** The engine's timers are what [autocheckTimer] says: one interval of
    60000 ms under the stored handle, or none. *)
Definition timer_ok (e : Engine) : Prop :=
  intervals e =
  match autocheckTimer e with
  | TimerHandle id => [(id, 60000%Z)]
  | _ => []
  end.

(** Kinds of calls. *)
Definition is_detect (c : Op) : bool :=
  match c with
  | GetSyncChanges => true
  | _ => false
  end.

Definition is_notify (c : Op) : bool :=
  match c with
  | AddSuccess _ => true
  | _ => false
  end.

(** The calls a handler can make. *)
Definition handler_op (c : Op) : bool :=
  match c with
  | InstallMissingPackages _ | UninstallPackages _ | FetchAtomSettingsInfo
  | SaveAtomSettings _ | GetFiles | ApplyPackageSettings _ _
  | SetLastUpdate _ | ConsoleError _ _ => true
  | _ => false
  end.

(** Every update of the engine a task can make keeps [P], whatever the
    collaborators answer and whatever engine satisfying [P] it reads. *)
Fixpoint engine_inv {R} (P : Engine -> Prop) (t : Task R) : Prop :=
  match t with
  | Ret _ => True
  | Halt => True
  | Call c k => forall r, engine_inv P (k r)
  | Read k => forall e, P e -> engine_inv P (k e)
  | Write f k => (forall e, P e -> P (f e)) /\ engine_inv P k
  end.

(** A promise whose thread keeps [P] as long as its continuations do. *)
Definition inv_safe {A R} (P : Engine -> Prop) (p : Promise A R) : Prop :=
  forall resolve reject,
    (forall a, engine_inv P (resolve a)) ->
    (forall err, engine_inv P (reject err)) ->
    engine_inv P (p resolve reject).

(** [P] holds of the engine and is kept by every waiting thread. *)
Definition loop_inv (P : Engine -> Prop) (sys : System) : Prop :=
  P (engine (state sys)) /\ Forall (engine_inv P) (waiting sys).

End Derived.

(** ** Reasoning about tasks *)

Section Reasoning.

Context `{Collaborators}.

Lemma call_engine : forall c s, engine (snd (call c s)) = engine s.
Proof.
  intros c s. unfold call. destruct (perform c (world s)); reflexivity.
Qed.

Lemma call_trace : forall c s, trace (snd (call c s)) = trace s ++ [c].
Proof.
  intros c s. unfold call. destruct (perform c (world s)); reflexivity.
Qed.

Lemma run_trace : forall R (t : Task R) s,
  exists l, trace (snd (run t s)) = trace s ++ l.
Proof.
  induction t as [r | | c k IH | k IH | f k IH]; intros s; cbn [run].
  - exists []. now rewrite app_nil_r.
  - exists []. now rewrite app_nil_r.
  - pose proof (call_trace c s) as Hc.
    destruct (call c s) as [r s1]. cbn [snd] in Hc.
    destruct (IH r s1) as [l Hl]. exists (c :: l).
    rewrite Hl, Hc, <- app_assoc. reflexivity.
  - apply IH.
  - destruct (IH (update f s)) as [l Hl]. exists l. exact Hl.
Qed.

Lemma settle_trace : forall A (p : Promise A (Settled A)) s,
  trace (snd (settle p s)) = trace s ++ calls_of p s.
Proof.
  intros A p s. unfold calls_of.
  assert (exists l, trace (snd (settle p s)) = trace s ++ l) as [l Hl].
  { unfold settle.
    destruct (run_trace _ (p (fun a => Ret (Resolved a)) (fun e => Ret (Rejected e))) s)
      as [l Hl].
    destruct (run _ s) as [[r|] s']; exists l; exact Hl. }
  rewrite Hl, skipn_app, skipn_all, Nat.sub_diag. reflexivity.
Qed.

(** Running a task to its end is running it to its next suspension point
    and then running what is left. *)
Lemma run_advance : forall R (t : Task R) s,
  snd (run t s) =
  match advance t s with
  | (s', Some t') => snd (run t' s')
  | (s', None) => s'
  end.
Proof.
  induction t as [r | | c k IH | k IH | f k IH]; intros s; cbn [run advance].
  - reflexivity.
  - reflexivity.
  - destruct (suspends c).
    + cbn [run]. reflexivity.
    + destruct (call c s) as [r s1]. apply IH.
  - apply IH.
  - apply IH.
Qed.

End Reasoning.

(** One collaborator call of the goal: name its answer and the state it
    leaves, and split on whether the promise was fulfilled. *)
Ltac call_step :=
  match goal with
  | |- context [call ?c ?s] =>
      let r := fresh "r" in
      let s' := fresh "s" in
      destruct (call c s) as [r s']; cbn in r;
      try match type of r with
          | Outcome _ => destruct r
          | unit => destruct r
          end
  end.

Ltac unfold_promises :=
  cbv [settle resume handlePackageAdd handlePackageRemove applyPackageSettings
       backup then_ catch_ discard jump exec throw call_with_extra answered
       installMissingPackages uninstallPackages fetchAtomSettingsInfo
       saveAtomSettings getSyncChanges setLastUpdate].

Ltac branch_step :=
  match goal with
  | |- context [success ?a] => destruct (success a)
  end.

Ltac crunch :=
  unfold_promises; cbn [run];
  repeat (first [branch_step | call_step]; cbn [run fst snd]);
  try reflexivity.

Section Handlers.

Context `{Collaborators}.

Lemma settle_handlePackageAdd : forall pkgs s,
  settle (handlePackageAdd pkgs) s =
  match call (InstallMissingPackages pkgs) s with
  | (Failed e, s1) => (Rejected e, s1)
  | (Fulfilled _, s1) =>
      match call FetchAtomSettingsInfo s1 with
      | (Failed e, s2) => (Rejected e, s2)
      | (Fulfilled info, s2) =>
          (Resolved tt, snd (call (SetLastUpdate (info_lastUpdate info)) s2))
      end
  end.
Proof. intros. crunch. Qed.

Lemma run_handlePackageAdd : forall R pkgs (res : unit -> Task R) rej s,
  run (handlePackageAdd pkgs res rej) s = resume (settle (handlePackageAdd pkgs) s) res rej.
Proof. intros. crunch. Qed.

End Handlers.

Section Pass.

Context `{Collaborators}.

Lemma settle_handlePackageRemove : forall pkgs s,
  settle (handlePackageRemove pkgs) s =
  match call (UninstallPackages pkgs) s with
  | (Failed e, s1) => (Rejected e, s1)
  | (Fulfilled _, s1) =>
      match call FetchAtomSettingsInfo s1 with
      | (Failed e, s2) => (Rejected e, s2)
      | (Fulfilled info, s2) =>
          (Resolved tt, snd (call (SetLastUpdate (info_lastUpdate info)) s2))
      end
  end.
Proof. intros. crunch. Qed.

Lemma settle_applyPackageSettings : forall settings s,
  settle (applyPackageSettings settings) s =
  match call FetchAtomSettingsInfo (snd (call (ApplyPackageSettings "" settings) s)) with
  | (Failed e, s2) => (Rejected e, s2)
  | (Fulfilled info, s2) =>
      (Resolved tt, snd (call (SetLastUpdate (info_lastUpdate info)) s2))
  end.
Proof. intros. crunch. Qed.

Lemma run_applyPackageSettings : forall R settings (res : unit -> Task R) rej s,
  run (applyPackageSettings settings res rej) s =
  resume (settle (applyPackageSettings settings) s) res rej.
Proof. intros. crunch. Qed.

Lemma settle_backup : forall s,
  settle backup s =
  let (files, s1) := call GetFiles s in
  match call (SaveAtomSettings (mkSettings files)) s1 with
  | (Failed e, s2) =>
      (Rejected e,
       snd (call (ConsoleError "atom-package-sync error backing up data: " e) s2))
  | (Fulfilled result, s2) =>
      (Resolved tt,
       if success result
       then snd (call (SetLastUpdate (result_lastUpdate result)) s2)
       else s2)
  end.
Proof. intros. crunch. Qed.

Lemma run_backup : forall R (res : unit -> Task R) rej s,
  run (backup res rej) s = resume (settle backup s) res rej.
Proof. intros. crunch. Qed.

(** One turn of the iteratee: the next item is reached exactly when the
    record has a handler and the handler resolves. *)
Lemma run_iteratee : forall R change (next : option Err -> Task R) s,
  run (iteratee change next) s =
  match handler_of change with
  | None => (None, s)
  | Some h =>
      match settle h s with
      | (Resolved _, s') => run (next None) s'
      | (_, s') => (None, s')
      end
  end.
Proof.
  intros R [st pkgs settings lu] next s.
  destruct st; cbv [iteratee handler_of dispatch status packages packageSettings lastUpdate];
    crunch.
Qed.

Lemma run_eachSeries : forall R changes (callback : option Err -> Task R) s,
  run (eachSeries changes iteratee callback) s =
  match in_series changes s with
  | (true, s') => run (callback None) s'
  | (false, s') => (None, s')
  end.
Proof.
  induction changes as [| change rest IH]; intros callback s; cbn [eachSeries in_series].
  - reflexivity.
  - rewrite run_iteratee. destruct (handler_of change) as [h |]; [| reflexivity].
    destruct (settle h s) as [[[] | e |] s']; try reflexivity.
    apply IH.
Qed.

End Pass.

(** Like [call_step], keeping what the call did to the trace and that it left
    the engine alone. *)
Ltac call_fact :=
  match goal with
  | |- context [call ?c ?s] =>
      let r := fresh "r" in
      let s' := fresh "s" in
      let Ht := fresh "Ht" in
      let He := fresh "He" in
      pose proof (call_trace c s) as Ht;
      pose proof (call_engine c s) as He;
      destruct (call c s) as [r s']; cbn [snd] in Ht, He; cbn in r;
      try match type of r with
          | Outcome _ => destruct r
          | unit => destruct r
          end
  end.

Ltac trace_chain :=
  repeat match goal with
         | Ht : trace _ = _ |- _ => rewrite Ht; clear Ht
         end;
  rewrite <- ?app_assoc; cbn [app].

Ltac engine_chain :=
  repeat match goal with
         | He : engine _ = _ |- _ => rewrite He; clear He
         end.

Section Sync.

Context `{Collaborators}.

Lemma calls_of_eq : forall A (p : Promise A (Settled A)) s l,
  trace (snd (settle p s)) = trace s ++ l -> calls_of p s = l.
Proof.
  intros A p s l E. unfold calls_of.
  rewrite E, skipn_app, skipn_all, Nat.sub_diag. reflexivity.
Qed.

(** No handler touches the engine's own state. *)
Lemma handler_engine : forall change h s,
  handler_of change = Some h -> engine (snd (settle h s)) = engine s.
Proof.
  intros [st pkgs settings lu] h s.
  destruct st; cbv [handler_of dispatch status packages packageSettings lastUpdate];
    intros E; inversion E; subst h; clear E;
    unfold_promises; cbn [run];
    repeat (first [branch_step | call_fact]; cbn [run fst snd]);
    engine_chain; reflexivity.
Qed.

Lemma in_series_engine : forall changes s b s',
  in_series changes s = (b, s') -> engine s' = engine s.
Proof.
  induction changes as [| change rest IH]; intros s b s' E; cbn [in_series] in E.
  - inversion E. reflexivity.
  - destruct (handler_of change) as [h |] eqn:Eh; [| inversion E; reflexivity].
    pose proof (handler_engine change h s Eh) as He.
    destruct (settle h s) as [[[] | e |] s1]; cbn [snd] in He.
    + rewrite (IH _ _ _ E). exact He.
    + inversion E; subst. exact He.
    + inversion E; subst. exact He.
Qed.

Lemma logged_engine : forall changes s, engine (logged changes s) = engine s.
Proof.
  intros changes s. unfold logged.
  destruct (0 <? List.length changes)%nat; [apply call_engine | reflexivity].
Qed.

Lemma notified_engine : forall n s, engine (notified n s) = engine s.
Proof.
  intros n s. unfold notified.
  destruct (0 <? n)%nat; [apply call_engine | reflexivity].
Qed.

Lemma notified_trace : forall n s,
  trace (notified n s) =
  trace s ++ (if (0 <? n)%nat then [AddSuccess SYNC_SUCCESS_MESSAGE] else []).
Proof.
  intros n s. unfold notified.
  destruct (0 <? n)%nat; [apply call_trace | now rewrite app_nil_r].
Qed.

(** [sync] called while the lock is held. *)
Lemma run_sync_held : forall R s,
  syncLock (engine s) = true -> run (R := R) sync s = (None, s).
Proof.
  intros R s L. cbv [sync discard]. cbn [run]. rewrite L. reflexivity.
Qed.

(** [sync] called while the lock is free: one whole pass. *)
Lemma run_sync_free : forall R s,
  syncLock (engine s) = false ->
  run (R := R) sync s =
  (None,
   match call GetSyncChanges (locked s) with
   | (Failed e, s2) =>
       update (set_syncLock false) (snd (call (ConsoleLog "Error Unlock sync") s2))
   | (Fulfilled changes, s2) =>
       match in_series changes (logged changes s2) with
       | (false, s4) => s4
       | (true, s4) =>
           update (set_syncLock false)
             (snd (call (ConsoleLog "Unlock sync")
                        (update setupAutoUpdateCheck
                                (notified (List.length changes) s4))))
       end
   end).
Proof.
  intros R s L. cbv [sync discard catch_ then_ getSyncChanges answered exec jump locked].
  cbn [run]. rewrite L. cbn [run].
  destruct (call (ConsoleLog "Sync lock") s) as [[] s1]. cbn [run snd].
  destruct (call GetSyncChanges (update (set_syncLock true) s1)) as [[changes | e] s2];
    cbn [run].
  - unfold applyChanges, logged, notified, exec.
    destruct (0 <? List.length changes)%nat; cbn [run].
    + destruct (call (ConsoleLogChanges "Changes: " changes) s2) as [[] s3].
      cbn [snd]. rewrite run_eachSeries.
      destruct (in_series changes s3) as [[|] s4]; [| reflexivity].
      cbn [run].
      destruct (call (AddSuccess SYNC_SUCCESS_MESSAGE) s4) as [[] s5].
      cbn [run snd].
      destruct (call (ConsoleLog "Unlock sync") (update setupAutoUpdateCheck s5))
        as [[] s6].
      reflexivity.
    + rewrite run_eachSeries.
      destruct (in_series changes s2) as [[|] s4]; [| reflexivity].
      cbn [run].
      destruct (call (ConsoleLog "Unlock sync") (update setupAutoUpdateCheck s4))
        as [[] s6].
      reflexivity.
  - destruct (call (ConsoleLog "Error Unlock sync") s2) as [[] s3]. reflexivity.
Qed.

End Sync.

(** ** The dispatch table and the handlers *)

Section HandlerClaims.

Context `{Collaborators}.

(** C8: the dispatch table.  [FirstTimeConnect] and the three "from client"
    statuses dispatch to [backup]; [AddPackagesFromServer] to
    [handlePackageAdd] with the record's packages; [RemovePackagesFromServer]
    to [handlePackageRemove] with the record's packages;
    [PackageSettingsChangedFromServer] to [applyPackageSettings] with the
    record's settings. *)
Theorem dispatch_table : forall R pkgs settings lu,
  @dispatch R (mkChange FirstTimeConnect pkgs settings lu) = Some (fun _ => backup) /\
  @dispatch R (mkChange AddPackagesFromClient pkgs settings lu) = Some (fun _ => backup) /\
  @dispatch R (mkChange RemovePackagesFromClient pkgs settings lu) = Some (fun _ => backup) /\
  @dispatch R (mkChange SettingsChangedFromClient pkgs settings lu) = Some (fun _ => backup) /\
  @dispatch R (mkChange AddPackagesFromServer pkgs settings lu) =
    Some (fun _ => handlePackageAdd pkgs) /\
  @dispatch R (mkChange RemovePackagesFromServer pkgs settings lu) =
    Some (fun _ => handlePackageRemove pkgs) /\
  @dispatch R (mkChange PackageSettingsChangedFromServer pkgs settings lu) =
    Some (fun _ => applyPackageSettings settings).
Proof.
  intros R pkgs settings lu. repeat split.
Qed.

(** C10: for a [PackageSettingsChangedFromServer] record the handler applies
    the payload, fetches the server's metadata and stores the [lastUpdate] of
    that fetch; the [lastUpdate] of the record plays no part: records that
    differ in it only have the same handler. *)
Theorem apply_settings_ignores_record_lastUpdate : forall pkgs settings lu lu' s,
  handler_of (mkChange PackageSettingsChangedFromServer pkgs settings lu) =
  handler_of (mkChange PackageSettingsChangedFromServer pkgs settings lu') /\
  match handler_of (mkChange PackageSettingsChangedFromServer pkgs settings lu) with
  | None => False
  | Some h =>
      match call FetchAtomSettingsInfo (snd (call (ApplyPackageSettings "" settings) s)) with
      | (Fulfilled info, s2) =>
          settle h s = (Resolved tt, snd (call (SetLastUpdate (info_lastUpdate info)) s2)) /\
          calls_of h s = [ApplyPackageSettings "" settings; FetchAtomSettingsInfo;
                          SetLastUpdate (info_lastUpdate info)]
      | (Failed e, s2) =>
          settle h s = (Rejected e, s2) /\
          calls_of h s = [ApplyPackageSettings "" settings; FetchAtomSettingsInfo]
      end
  end.
Proof.
  intros pkgs settings lu lu' s. split; [reflexivity |].
  cbv [handler_of dispatch status packageSettings lastUpdate call_with_extra].
  pose proof (settle_trace _ (applyPackageSettings settings) s) as T.
  rewrite settle_applyPackageSettings in T |- *.
  pose proof (call_trace (ApplyPackageSettings "" settings) s) as T1.
  destruct (call (ApplyPackageSettings "" settings) s) as [[] s1]. cbn [snd] in *.
  pose proof (call_trace FetchAtomSettingsInfo s1) as T2.
  destruct (call FetchAtomSettingsInfo s1) as [[info | e] s2]; cbn [snd] in *.
  - pose proof (call_trace (SetLastUpdate (info_lastUpdate info)) s2) as T3.
    destruct (call (SetLastUpdate (info_lastUpdate info)) s2) as [[] s3]. cbn [snd] in *.
    split; [reflexivity |].
    rewrite T3, T2, T1, <- !app_assoc in T. cbn [app] in T.
    apply app_inv_head in T. symmetry. exact T.
  - split; [reflexivity |].
    rewrite T2, T1, <- !app_assoc in T. cbn [app] in T.
    apply app_inv_head in T. symmetry. exact T.
Qed.

(** C7: for a [NewAtomInstance] record the handler runs [handlePackageAdd],
    then [applyPackageSettings], then [backup]; each stage starts in the state
    the stage before left when it resolved, and a stage that fails ends the
    composite there, with that error. *)
Theorem new_instance_composite : forall pkgs settings lu s,
  match handler_of (mkChange NewAtomInstance pkgs settings lu) with
  | None => False
  | Some h =>
      settle h s =
      match settle (handlePackageAdd pkgs) s with
      | (Resolved _, s1) =>
          match settle (applyPackageSettings settings) s1 with
          | (Resolved _, s2) => settle backup s2
          | (Rejected e, s2) => (Rejected e, s2)
          | (Pending, s2) => (Pending, s2)
          end
      | (Rejected e, s1) => (Rejected e, s1)
      | (Pending, s1) => (Pending, s1)
      end /\
      calls_of h s =
      calls_of (handlePackageAdd pkgs) s ++
      match settle (handlePackageAdd pkgs) s with
      | (Resolved _, s1) =>
          calls_of (applyPackageSettings settings) s1 ++
          match settle (applyPackageSettings settings) s1 with
          | (Resolved _, s2) => calls_of backup s2
          | _ => []
          end
      | _ => []
      end
  end.
Proof.
  intros pkgs settings lu s.
  cbv [handler_of dispatch status packages packageSettings].
  match goal with |- ?E /\ _ => assert E as Eq end.
  { crunch. }
  split; [exact Eq |].
  apply calls_of_eq. rewrite Eq.
  pose proof (settle_trace _ (handlePackageAdd pkgs) s) as T1.
  destruct (settle (handlePackageAdd pkgs) s) as [[[] | e |] s1]; cbn [snd] in *;
    try (rewrite T1, app_nil_r; reflexivity).
  pose proof (settle_trace _ (applyPackageSettings settings) s1) as T2.
  destruct (settle (applyPackageSettings settings) s1) as [[[] | e |] s2]; cbn [snd] in *;
    try (rewrite T2, T1, app_nil_r, <- app_assoc; reflexivity).
  rewrite (settle_trace _ backup s2), T2, T1, <- !app_assoc. reflexivity.
Qed.

(** C6, as amended: [backup] resolves whenever the save is answered, and has
    then stored the returned [lastUpdate] exactly when the answer says
    [success: true]; it rejects, with the error of the save, exactly when the
    save is rejected. *)
Theorem backup_outcomes : forall s,
  let files := fst (call GetFiles s) in
  match save_reply s with
  | Fulfilled result =>
      fst (settle backup s) = Resolved tt /\
      calls_of backup s =
      [GetFiles; SaveAtomSettings (mkSettings files)] ++
      (if success result then [SetLastUpdate (result_lastUpdate result)] else [])
  | Failed e =>
      fst (settle backup s) = Rejected e /\
      calls_of backup s =
      [GetFiles; SaveAtomSettings (mkSettings files);
       ConsoleError "atom-package-sync error backing up data: " e]
  end.
Proof.
  intros s. cbv zeta.
  pose proof (settle_trace _ backup s) as T.
  rewrite settle_backup in T |- *. unfold save_reply.
  pose proof (call_trace GetFiles s) as T1.
  destruct (call GetFiles s) as [fs s1]. cbn [fst snd] in *.
  pose proof (call_trace (SaveAtomSettings (mkSettings fs)) s1) as T2.
  destruct (call (SaveAtomSettings (mkSettings fs)) s1) as [[result | e] s2];
    cbn [fst snd] in *.
  - split; [reflexivity |].
    destruct (success result).
    + rewrite call_trace, T2, T1, <- !app_assoc in T. cbn [app] in T.
      apply app_inv_head in T. symmetry. exact T.
    + rewrite T2, T1, <- !app_assoc in T. cbn [app] in T.
      apply app_inv_head in T. symmetry. exact T.
  - split; [reflexivity |].
    rewrite call_trace, T2, T1, <- !app_assoc in T. cbn [app] in T.
    apply app_inv_head in T. symmetry. exact T.
Qed.

End HandlerClaims.

(** ** Properties of the sync pass *)

Section PassClaims.

Context `{Collaborators}.

Lemma setup_truthy : forall e, truthy (autocheckTimer (setupAutoUpdateCheck e)) = true.
Proof.
  intros e. unfold setupAutoUpdateCheck.
  destruct (truthy (autocheckTimer e)) eqn:E; [exact E | reflexivity].
Qed.

Lemma setup_syncLock : forall e, syncLock (setupAutoUpdateCheck e) = syncLock e.
Proof.
  intros e. unfold setupAutoUpdateCheck.
  destruct (truthy (autocheckTimer e)); reflexivity.
Qed.

Lemma unlock_setup_lock : forall e,
  syncLock e = false ->
  set_syncLock false (setupAutoUpdateCheck (set_syncLock true e)) = setupAutoUpdateCheck e.
Proof.
  intros [l t i n] L. cbn in L. subst l.
  unfold setupAutoUpdateCheck, set_syncLock. cbn.
  destruct (truthy t); reflexivity.
Qed.

(** C4: with three records that each have a handler, the handlers run one
    after the other in the order of the records, each starting in the state
    its predecessor left when it resolved; when the second does not resolve
    the pass ends in the state that handler left: the third makes no call. *)
Theorem handlers_run_in_order : forall R s c1 c2 c3 h1 h2 h3 s',
  syncLock (engine s) = false ->
  call GetSyncChanges (locked s) = (Fulfilled [c1; c2; c3], s') ->
  handler_of c1 = Some h1 ->
  handler_of c2 = Some h2 ->
  handler_of c3 = Some h3 ->
  let s0 := logged [c1; c2; c3] s' in
  let final := snd (run (R := R) sync s) in
  match settle h1 s0 with
  | (Resolved _, s1) =>
      match settle h2 s1 with
      | (Resolved _, s2) =>
          match settle h3 s2 with
          | (Resolved _, s3) =>
              trace final =
              trace s0 ++ calls_of h1 s0 ++ calls_of h2 s1 ++ calls_of h3 s2 ++
              [AddSuccess SYNC_SUCCESS_MESSAGE; ConsoleLog "Unlock sync"]
          | (_, s3) =>
              final = s3 /\
              trace final = trace s0 ++ calls_of h1 s0 ++ calls_of h2 s1 ++ calls_of h3 s2
          end
      | (_, s2) =>
          final = s2 /\
          trace final = trace s0 ++ calls_of h1 s0 ++ calls_of h2 s1
      end
  | (_, s1) =>
      final = s1 /\ trace final = trace s0 ++ calls_of h1 s0
  end.
Proof.
  intros R s c1 c2 c3 h1 h2 h3 s' L D E1 E2 E3 s0 final.
  subst final. rewrite (run_sync_free R s L), D. cbn [snd in_series].
  fold s0. rewrite E1.
  pose proof (settle_trace _ h1 s0) as T1.
  destruct (settle h1 s0) as [[[] | e1 |] s1]; cbn [snd] in T1;
    try (split; [reflexivity | exact T1]).
  rewrite E2.
  pose proof (settle_trace _ h2 s1) as T2. rewrite T1, <- app_assoc in T2.
  destruct (settle h2 s1) as [[[] | e2 |] s2]; cbn [snd] in T2;
    try (split; [reflexivity | exact T2]).
  rewrite E3.
  pose proof (settle_trace _ h3 s2) as T3. rewrite T2, <- !app_assoc in T3.
  destruct (settle h3 s2) as [[[] | e3 |] s3]; cbn [snd] in T3;
    try (split; [reflexivity | exact T3]).
  cbn [update trace]. rewrite call_trace. cbn [update trace].
  rewrite notified_trace, T3. cbn. rewrite <- !app_assoc. reflexivity.
Qed.

(** C5, as amended: when every handler of a pass has resolved, the pass emits
    the success notification exactly when it had at least one record, arms
    the timer whatever the number of records (which changes nothing when the
    timer is armed already), and frees the lock. *)
Theorem successful_pass_notifies_and_arms : forall R s changes s2 s4,
  syncLock (engine s) = false ->
  call GetSyncChanges (locked s) = (Fulfilled changes, s2) ->
  in_series changes (logged changes s2) = (true, s4) ->
  let final := snd (run (R := R) sync s) in
  trace final =
    trace s4 ++
    (if (0 <? List.length changes)%nat then [AddSuccess SYNC_SUCCESS_MESSAGE] else []) ++
    [ConsoleLog "Unlock sync"] /\
  engine final = setupAutoUpdateCheck (engine s) /\
  truthy (autocheckTimer (engine final)) = true /\
  syncLock (engine final) = false.
Proof.
  intros R s changes s2 s4 L D S final.
  assert (engine final = setupAutoUpdateCheck (engine s)) as E.
  { subst final. rewrite (run_sync_free R s L), D, S. cbn [snd update engine].
    rewrite call_engine. cbn [update engine]. rewrite notified_engine.
    rewrite (in_series_engine _ _ _ _ S), logged_engine.
    pose proof (call_engine GetSyncChanges (locked s)) as E2.
    rewrite D in E2. cbn [snd] in E2. rewrite E2.
    unfold locked. cbn [update engine]. rewrite call_engine.
    apply unlock_setup_lock. exact L. }
  split; [| split; [exact E | split]].
  - subst final. rewrite (run_sync_free R s L), D, S. cbn [snd update trace].
    rewrite call_trace. cbn [update trace]. rewrite notified_trace.
    rewrite <- app_assoc. reflexivity.
  - rewrite E. apply setup_truthy.
  - rewrite E, setup_syncLock. exact L.
Qed.

(** A pass whose change detection fails frees the lock. *)
Lemma detection_failure_frees_lock : forall R s e s2,
  syncLock (engine s) = false ->
  call GetSyncChanges (locked s) = (Failed e, s2) ->
  syncLock (engine (snd (run (R := R) sync s))) = false /\
  trace (snd (run (R := R) sync s)) = trace s2 ++ [ConsoleLog "Error Unlock sync"].
Proof.
  intros R s e s2 L D. rewrite (run_sync_free R s L), D. cbn [snd update engine trace].
  split; [reflexivity | apply call_trace].
Qed.

(** A pass in which some record has no handler, or some handler does not
    resolve, ends right there, in the state that record left, and the lock
    stays held. *)
Lemma stalled_pass_holds_lock : forall R s changes s2 s4,
  syncLock (engine s) = false ->
  call GetSyncChanges (locked s) = (Fulfilled changes, s2) ->
  in_series changes (logged changes s2) = (false, s4) ->
  snd (run (R := R) sync s) = s4 /\ syncLock (engine s4) = true.
Proof.
  intros R s changes s2 s4 L D S. rewrite (run_sync_free R s L), D, S.
  split; [reflexivity |].
  rewrite (in_series_engine _ _ _ _ S), logged_engine.
  pose proof (call_engine GetSyncChanges (locked s)) as E.
  rewrite D in E. cbn [snd] in E. rewrite E. reflexivity.
Qed.

End PassClaims.

(** ** Runs on the scripted collaborators *)

(** C5, as stated, fails: a pass that finds no change and succeeds arms the
    timer of an instance whose timer was not armed. *)
Lemma empty_pass_arms_timer :
  ~ arms_only_on_changes (Scripted.boot (Scripted.healthy [])).
Proof.
  intros C.
  specialize (C [] _ _ eq_refl eq_refl eq_refl).
  cbv in C. destruct C as [_ [C _]]. discriminate C.
Qed.

(** C6, as stated, fails: when the server answers the save with
    [success: false], [backup] resolves and stores nothing. *)
Lemma backup_refused_not_persisted :
  ~ backup_all_or_nothing (Scripted.boot (Scripted.save_refused [])).
Proof.
  intros [[_ [result [E I]]] | [e [E _]]].
  - cbv in E. inversion E; subst result. cbv in I.
    destruct I as [I | [I | []]]; discriminate I.
  - cbv in E. discriminate E.
Qed.

(** C1: a handler that fails.  The pass of a fresh instance finds one
    [FirstTimeConnect] record and the server rejects the save: [sync] ends
    with the lock still held, after logging the error of [backup] and nothing
    else; no thread is left waiting, and a later [sync] does nothing. *)
Theorem handler_failure_leaves_lock_held :
  let s0 := Scripted.boot (Scripted.save_fails [Scripted.change FirstTimeConnect]) in
  let final := snd (run (R := unit) sync s0) in
  fst (settle backup (logged [Scripted.change FirstTimeConnect]
                              (snd (call GetSyncChanges (locked s0))))) = Rejected "503" /\
  syncLock (engine final) = true /\
  trace final =
    [ConsoleLog "Sync lock"; GetSyncChanges;
     ConsoleLogChanges "Changes: " [Scripted.change FirstTimeConnect];
     GetFiles; SaveAtomSettings (mkSettings [("config.cson", "*")]);
     ConsoleError "atom-package-sync error backing up data: " "503"] /\
  steps (mkSystem s0 []) [Command; Complete 0; Complete 0] = mkSystem final [] /\
  run (R := unit) sync final = (None, final).
Proof.
  cbv zeta. repeat split.
Qed.

(** C2: a record without a handler.  The pass of a fresh instance finds a
    record of an unknown status followed by a [FirstTimeConnect] record, and
    every collaborator works: [sync] ends at the first record with the lock
    still held; the second record is never handled, no thread is left waiting,
    and a later [sync] does nothing. *)
Theorem unknown_status_stalls_pass :
  let changes := [Scripted.change (OtherStatus "Renamed"); Scripted.change FirstTimeConnect] in
  let s0 := Scripted.boot (Scripted.healthy changes) in
  let final := snd (run (R := unit) sync s0) in
  syncLock (engine final) = true /\
  trace final =
    [ConsoleLog "Sync lock"; GetSyncChanges; ConsoleLogChanges "Changes: " changes] /\
  steps (mkSystem s0 []) [Command; Complete 0] = mkSystem final [] /\
  run (R := unit) sync final = (None, final).
Proof.
  cbv zeta. repeat split.
Qed.

(** ** The auto-poll timer *)

Lemma timer_ok_fresh : timer_ok fresh_engine.
Proof. reflexivity. Qed.

Lemma timer_ok_setup : forall e, timer_ok e -> timer_ok (setupAutoUpdateCheck e).
Proof.
  intros [l t i n]. unfold timer_ok, setupAutoUpdateCheck. cbn.
  destruct t; cbn; intros E; subst; reflexivity.
Qed.

Lemma timer_ok_stop : forall e, timer_ok e -> timer_ok (stopAutoUpdateCheck e).
Proof.
  intros [l t i n]. unfold timer_ok, stopAutoUpdateCheck. cbn.
  destruct t; cbn; intros E; subst; cbn; try reflexivity.
  rewrite Pos.eqb_refl. reflexivity.
Qed.

Lemma timer_ok_lock : forall b e, timer_ok e -> timer_ok (set_syncLock b e).
Proof. intros b [l t i n] E. exact E. Qed.

(** C9: arming an armed timer changes nothing, and arming twice leaves the
    one interval timer of the first call; disarming a disarmed timer changes
    nothing and cancels no timer. *)
Theorem timer_idempotent : forall e,
  timer_ok e ->
  (truthy (autocheckTimer e) = true -> setupAutoUpdateCheck e = e) /\
  setupAutoUpdateCheck (setupAutoUpdateCheck e) = setupAutoUpdateCheck e /\
  List.length (intervals (setupAutoUpdateCheck (setupAutoUpdateCheck e))) = 1%nat /\
  stopAutoUpdateCheck (stopAutoUpdateCheck e) = stopAutoUpdateCheck e /\
  intervals (stopAutoUpdateCheck e) = [] /\
  (truthy (autocheckTimer e) = false ->
   intervals (stopAutoUpdateCheck e) = intervals e /\
   truthy (autocheckTimer (stopAutoUpdateCheck e)) = false).
Proof.
  intros [l t i n]. unfold timer_ok, setupAutoUpdateCheck, stopAutoUpdateCheck.
  cbn. intros E. subst i.
  destruct t; cbn; rewrite ?Pos.eqb_refl; cbn;
    repeat split; intros; try reflexivity; try discriminate.
Qed.

Lemma timer_idempotent_witness :
  timer_ok (setupAutoUpdateCheck fresh_engine) /\
  setupAutoUpdateCheck (setupAutoUpdateCheck (setupAutoUpdateCheck fresh_engine)) =
  setupAutoUpdateCheck (setupAutoUpdateCheck fresh_engine) /\
  intervals (setupAutoUpdateCheck (setupAutoUpdateCheck fresh_engine)) =
  [(1%positive, 60000%Z)].
Proof.
  split; [reflexivity |].
  split.
  - apply (timer_idempotent (setupAutoUpdateCheck fresh_engine)). reflexivity.
  - reflexivity.
Defined.

(** ** Mutual exclusion of passes *)

Ltac lock_step :=
  cbn [keeps_lock suspends];
  first
    [ assumption
    | match goal with
      | |- keeps_lock (match ?r with _ => _ end) _ => destruct r
      | |- keeps_lock (if ?b then _ else _) _ => destruct b
      | |- _ /\ _ => split
      | |- forall _, _ => intro
      | |- True => exact I
      | H : forall a e, syncLock e = true -> keeps_lock (?k a) e
        |- keeps_lock (?k _) _ => apply H
      end ].

Ltac lock_tac := repeat lock_step.

Section Exclusion.

Context `{Collaborators}.

Lemma lock_safe_then : forall A B R (p : Promise A R) (f : A -> Promise B R),
  lock_safe p -> (forall a, lock_safe (f a)) -> lock_safe (then_ p f).
Proof.
  intros A B R p f Hp Hf resolve reject e L Hres Hrej.
  unfold then_. apply Hp; [exact L | | exact Hrej].
  intros a e' L'. apply Hf; assumption.
Qed.

Lemma lock_safe_setLastUpdate : forall R v, lock_safe (@setLastUpdate R v).
Proof.
  intros R v resolve reject e L Hres Hrej. unfold setLastUpdate. lock_tac.
Qed.

Lemma lock_safe_fetch : forall R, lock_safe (@fetchAtomSettingsInfo R).
Proof.
  intros R resolve reject e L Hres Hrej. unfold fetchAtomSettingsInfo, answered. lock_tac.
Qed.

Lemma lock_safe_handlePackageAdd : forall R pkgs, lock_safe (@handlePackageAdd R pkgs).
Proof.
  intros R pkgs. unfold handlePackageAdd.
  repeat apply lock_safe_then; intros;
    try apply lock_safe_setLastUpdate; try apply lock_safe_fetch.
  intros resolve reject e L Hres Hrej. unfold installMissingPackages, answered. lock_tac.
Qed.

Lemma lock_safe_handlePackageRemove : forall R pkgs, lock_safe (@handlePackageRemove R pkgs).
Proof.
  intros R pkgs. unfold handlePackageRemove.
  repeat apply lock_safe_then; intros;
    try apply lock_safe_setLastUpdate; try apply lock_safe_fetch.
  intros resolve reject e L Hres Hrej. unfold uninstallPackages, answered. lock_tac.
Qed.

Lemma lock_safe_applyPackageSettings : forall R settings,
  lock_safe (@applyPackageSettings R settings).
Proof.
  intros R settings resolve reject e L Hres Hrej.
  unfold applyPackageSettings, exec. cbn [keeps_lock suspends]. intros _.
  apply lock_safe_then; try assumption.
  - apply lock_safe_fetch.
  - intros a. apply lock_safe_setLastUpdate.
Qed.

Lemma lock_safe_backup : forall R, lock_safe (@backup R).
Proof.
  intros R resolve reject e L Hres Hrej.
  cbv [backup discard catch_ then_ saveAtomSettings answered jump exec]. lock_tac.
Qed.

Lemma lock_safe_dispatch : forall R change func,
  @dispatch R change = Some func -> lock_safe (func tt).
Proof.
  intros R [st pkgs settings lu] func.
  destruct st; cbv [dispatch status packages packageSettings lastUpdate call_with_extra];
    intros E; inversion E; subst func; clear E.
  all: try apply lock_safe_backup.
  all: try apply lock_safe_handlePackageAdd.
  all: try apply lock_safe_handlePackageRemove.
  all: try apply lock_safe_applyPackageSettings.
  apply lock_safe_then; [apply lock_safe_then |]; intros.
  - apply lock_safe_handlePackageAdd.
  - apply lock_safe_applyPackageSettings.
  - apply lock_safe_backup.
Qed.

Lemma keeps_lock_iteratee : forall R change (next : option Err -> Task R) e,
  syncLock e = true ->
  (forall e', syncLock e' = true -> keeps_lock (next None) e') ->
  keeps_lock (iteratee change next) e.
Proof.
  intros R change next e L Hnext. unfold iteratee.
  destruct (dispatch change) as [func |] eqn:D; [| exact I].
  unfold discard, catch_, then_, jump, throw.
  apply (lock_safe_dispatch R change func D); [exact L | |].
  - intros _ e' L'. apply Hnext. exact L'.
  - intros err e' L'. exact I.
Qed.

Lemma keeps_lock_eachSeries : forall R changes (callback : option Err -> Task R) e,
  syncLock e = true ->
  (forall e', syncLock e' = true -> keeps_lock (callback None) e') ->
  keeps_lock (eachSeries changes iteratee callback) e.
Proof.
  induction changes as [| change rest IH]; intros callback e L Hcb; cbn [eachSeries].
  - apply Hcb. exact L.
  - apply keeps_lock_iteratee; [exact L |].
    intros e' L'. apply IH; assumption.
Qed.

(** Wherever it is called, [sync] holds the lock each time it waits. *)
Lemma keeps_lock_sync : forall R e, keeps_lock (@sync R) e.
Proof.
  intros R e. cbv [sync discard catch_ then_ getSyncChanges answered exec jump].
  cbn [keeps_lock]. destruct (syncLock e) eqn:L; [exact I |].
  cbn [keeps_lock suspends]. intros _. split; [reflexivity |].
  intros [changes | err] e1 L1.
  - unfold applyChanges, exec.
    destruct (0 <? List.length changes)%nat; cbn [keeps_lock suspends]; [intros _ |];
      (apply keeps_lock_eachSeries; [exact L1 |]); intros e2 L2; lock_tac.
  - lock_tac.
Qed.

(** A thread that keeps the lock, run to its next suspension point. *)
Lemma advance_keeps_lock : forall R (t : Task R) s,
  keeps_lock t (engine s) ->
  match advance t s with
  | (s', Some t') =>
      syncLock (engine s') = true /\
      exists c k, t' = Call c k /\ suspends c = true /\
                  forall r e', syncLock e' = true -> keeps_lock (k r) e'
  | (_, None) => True
  end.
Proof.
  induction t as [r | | c k IH | k IH | f k IH]; intros s K; cbn [advance].
  - exact I.
  - exact I.
  - cbn [keeps_lock] in K. destruct (suspends c) eqn:S.
    + destruct K as [L K]. split; [exact L |]. exists c, k. auto.
    + pose proof (call_engine c s) as E.
      destruct (call c s) as [r s1]. cbn [snd] in E.
      apply IH. rewrite E. apply K.
  - apply IH. exact K.
  - apply IH. exact K.
Qed.

Lemma advance_sync_held : forall R s,
  syncLock (engine s) = true -> advance (@sync R) s = (s, None).
Proof.
  intros R s L. cbv [sync discard]. cbn [advance]. rewrite L. reflexivity.
Qed.

Lemma spawn_one_pass : forall t sys,
  waiting sys = [] ->
  keeps_lock t (engine (state sys)) ->
  one_pass (spawn t sys).
Proof.
  intros t sys W K. unfold spawn, one_pass.
  pose proof (advance_keeps_lock _ t (state sys) K) as A.
  destruct (advance t (state sys)) as [s' [t' |]]; cbn [waiting state]; rewrite W.
  - right. destruct A as [L [c [k [E [S K']]]]].
    exists t'. split; [reflexivity |]. split; [| exact L].
    subst t'. split; assumption.
  - left. reflexivity.
Qed.

Lemma sync_one_pass : forall sys, one_pass sys -> one_pass (spawn sync sys).
Proof.
  intros sys [W | [t [W [P L]]]].
  - apply spawn_one_pass; [exact W | apply keeps_lock_sync].
  - unfold spawn. rewrite (advance_sync_held _ _ L). rewrite app_nil_r.
    right. exists t. auto.
Qed.

Lemma step_one_pass : forall sys ev, one_pass sys -> one_pass (step sys ev).
Proof.
  intros sys ev Inv. destruct ev as [| id | | i]; cbn [step].
  - apply sync_one_pass. exact Inv.
  - destruct (existsb _ _); [apply sync_one_pass |]; exact Inv.
  - destruct Inv as [W | [t [W [P L]]]]; [left; exact W | right].
    exists t. cbn [waiting state update engine]. repeat split; try assumption.
    unfold stop, stopAutoUpdateCheck, set_autocheckTimer. cbn [syncLock].
    destruct (autocheckTimer (engine (state sys))); exact L.
  - destruct Inv as [W | [t [W [P L]]]].
    + rewrite W. destruct i; cbn [nth_error]; left; exact W.
    + rewrite W. destruct i as [| i]; cbn [nth_error].
      * destruct t as [r | | c k | k | f k]; try (right; exists (Ret r); auto; fail);
          try contradiction.
        destruct P as [S K].
        pose proof (call_engine c (state sys)) as E.
        destruct (call c (state sys)) as [r s1]. cbn [snd] in E.
        apply spawn_one_pass; [reflexivity |].
        cbn [state]. apply K. rewrite E. exact L.
      * destruct i; cbn [nth_error]; right; exists t; auto.
Qed.

Lemma steps_one_pass : forall evs sys, one_pass sys -> one_pass (steps sys evs).
Proof.
  induction evs as [| ev evs IH]; intros sys Inv; cbn [steps fold_left].
  - exact Inv.
  - apply IH. apply step_one_pass. exact Inv.
Qed.

(** C3: [sync] called while the lock is held ends at once: it makes no call,
    starts no handler and leaves the whole state as it was.  Hence, whatever
    happens to an instance, at most one thread of a pass is waiting at any
    time, that thread holds the lock, and while the lock is held the sync
    command and the timer change nothing. *)
Theorem sync_while_locked_is_noop : forall s0 evs,
  (forall R s, syncLock (engine s) = true ->
     run (R := R) sync s = (None, s) /\ advance (@sync R) s = (s, None)) /\
  let sys := steps (mkSystem s0 []) evs in
  (List.length (waiting sys) <= 1)%nat /\
  (forall t, In t (waiting sys) ->
     pass_thread t /\ syncLock (engine (state sys)) = true) /\
  (syncLock (engine (state sys)) = true ->
     step sys Command = sys /\ forall id, step sys (Tick id) = sys).
Proof.
  intros s0 evs. split.
  - intros R s L. split; [apply run_sync_held | apply advance_sync_held]; exact L.
  - cbv zeta.
    assert (one_pass (steps (mkSystem s0 []) evs)) as Inv.
    { apply steps_one_pass. left. reflexivity. }
    set (sys := steps (mkSystem s0 []) evs) in *.
    split; [| split].
    + destruct Inv as [W | [t [W _]]]; rewrite W; cbn; lia.
    + intros t I. destruct Inv as [W | [t' [W [P L]]]]; rewrite W in I.
      * destruct I.
      * destruct I as [E | []]. subst t'. auto.
    + intros L.
      assert (spawn sync sys = sys) as E.
      { unfold spawn. rewrite (advance_sync_held _ _ L), app_nil_r.
        destruct sys; reflexivity. }
      split; [exact E |].
      intros id. cbn [step]. destruct (existsb _ _); [exact E | reflexivity].
Qed.

End Exclusion.

(** ** The theorems at work on the scripted collaborators *)

(** A pass in flight: a second [sync] command changes nothing. *)
Lemma sync_while_locked_is_noop_witness :
  let s0 := Scripted.boot (Scripted.healthy [Scripted.change FirstTimeConnect]) in
  let sys := steps (mkSystem s0 []) [Command] in
  syncLock (engine (state sys)) = true /\
  step sys Command = sys /\
  (List.length (waiting (steps sys [Command; Tick 1; Complete 0; Command])) <= 1)%nat.
Proof.
  cbv zeta.
  split; [reflexivity |].
  split.
  - exact (proj1
             (proj2 (proj2 (proj2
                (sync_while_locked_is_noop
                   (Scripted.boot (Scripted.healthy [Scripted.change FirstTimeConnect]))
                   [Command])))
                eq_refl)).
  - exact (proj1 (proj2
             (sync_while_locked_is_noop
                (Scripted.boot (Scripted.healthy [Scripted.change FirstTimeConnect]))
                [Command; Command; Tick 1; Complete 0; Command]))).
Defined.

(** Three records; the server rejects the save of the second: the packages of
    the first are installed, the third is never handled. *)
Lemma handlers_run_in_order_witness :
  let c1 := Scripted.change AddPackagesFromServer in
  let c2 := Scripted.change FirstTimeConnect in
  let c3 := Scripted.change RemovePackagesFromServer in
  let s := Scripted.boot (Scripted.save_fails [c1; c2; c3]) in
  let final := snd (run (R := unit) sync s) in
  syncLock (engine s) = false /\
  handler_of c1 = Some (handlePackageAdd ["minimap"]) /\
  handler_of c2 = Some backup /\
  handler_of c3 = Some (handlePackageRemove ["minimap"]) /\
  final = snd (settle backup
                 (snd (settle (handlePackageAdd ["minimap"])
                         (logged [c1; c2; c3] (snd (call GetSyncChanges (locked s))))))) /\
  trace final =
    [ConsoleLog "Sync lock"; GetSyncChanges; ConsoleLogChanges "Changes: " [c1; c2; c3];
     InstallMissingPackages ["minimap"]; FetchAtomSettingsInfo; SetLastUpdate 7%Z;
     GetFiles; SaveAtomSettings (mkSettings [("config.cson", "*")]);
     ConsoleError "atom-package-sync error backing up data: " "503"].
Proof.
  cbv zeta.
  split; [reflexivity |].
  split; [reflexivity |].
  split; [reflexivity |].
  split; [reflexivity |].
  exact (handlers_run_in_order unit
           (Scripted.boot
              (Scripted.save_fails
                 [Scripted.change AddPackagesFromServer;
                  Scripted.change FirstTimeConnect;
                  Scripted.change RemovePackagesFromServer]))
           (Scripted.change AddPackagesFromServer)
           (Scripted.change FirstTimeConnect)
           (Scripted.change RemovePackagesFromServer)
           (handlePackageAdd ["minimap"]) backup (handlePackageRemove ["minimap"])
           _ eq_refl eq_refl eq_refl eq_refl eq_refl).
Defined.

(** A pass over two records that succeeds: one notification, timer armed,
    lock free. *)
Lemma successful_pass_notifies_and_arms_witness :
  let changes := [Scripted.change AddPackagesFromServer; Scripted.change FirstTimeConnect] in
  let s := Scripted.boot (Scripted.healthy changes) in
  let final := snd (run (R := unit) sync s) in
  syncLock (engine s) = false /\
  engine final = setupAutoUpdateCheck (engine s) /\
  truthy (autocheckTimer (engine final)) = true /\
  syncLock (engine final) = false.
Proof.
  cbv zeta.
  split; [reflexivity |].
  exact (proj2
           (successful_pass_notifies_and_arms unit
              (Scripted.boot
                 (Scripted.healthy
                    [Scripted.change AddPackagesFromServer;
                     Scripted.change FirstTimeConnect]))
              [Scripted.change AddPackagesFromServer; Scripted.change FirstTimeConnect]
              _ _ eq_refl eq_refl eq_refl)).
Defined.

(** * Further properties of the code *)

(** ** The handlers, one by one *)

Ltac call_fact_all :=
  match goal with
  | |- context [call ?c ?s] =>
      let r := fresh "r" in
      let s' := fresh "s" in
      let Ht := fresh "Ht" in
      pose proof (call_trace c s) as Ht;
      destruct (call c s) as [r s']; cbn [fst snd] in *; cbn in r;
      try match type of r with
          | Outcome _ => destruct r
          | unit => destruct r
          end
  | H : context [call ?c ?s] |- _ =>
      let r := fresh "r" in
      let s' := fresh "s" in
      let Ht := fresh "Ht" in
      pose proof (call_trace c s) as Ht;
      destruct (call c s) as [r s']; cbn [fst snd] in *; cbn in r;
      try match type of r with
          | Outcome _ => destruct r
          | unit => destruct r
          end
  end.

Section MoreHandlers.

Context `{Collaborators}.

Lemma skipn_trace : forall (s s' : State) l,
  trace s' = trace s ++ l -> skipn (List.length (trace s)) (trace s') = l.
Proof.
  intros s s' l E. rewrite E, skipn_app, skipn_all, Nat.sub_diag. reflexivity.
Qed.

(** X1: no handler leaves its promise unsettled: whatever the collaborators
    answer, the promise [func()] of a record is resolved or rejected. *)
Theorem handler_settles : forall change h s,
  handler_of change = Some h ->
  fst (settle h s) = Resolved tt \/ exists e, fst (settle h s) = Rejected e.
Proof.
  intros [st pkgs settings lu] h s.
  destruct st; cbv [handler_of dispatch status packages packageSettings lastUpdate];
    intros E; inversion E; subst h; clear E;
    unfold_promises; cbn [run];
    repeat (first [branch_step | call_step]; cbn [run fst snd]);
    solve [left; reflexivity | right; eexists; reflexivity].
Qed.

(** X2: [handlePackageAdd] installs, then fetches the server's metadata, then
    stores the fetched [lastUpdate]; a failed install ends it before the
    fetch and a failed fetch before anything is stored, with that error. *)
Theorem package_add_outcomes : forall pkgs s,
  match call (InstallMissingPackages pkgs) s with
  | (Failed e, s1) =>
      settle (handlePackageAdd pkgs) s = (Rejected e, s1) /\
      calls_of (handlePackageAdd pkgs) s = [InstallMissingPackages pkgs]
  | (Fulfilled _, s1) =>
      match call FetchAtomSettingsInfo s1 with
      | (Failed e, s2) =>
          settle (handlePackageAdd pkgs) s = (Rejected e, s2) /\
          calls_of (handlePackageAdd pkgs) s =
          [InstallMissingPackages pkgs; FetchAtomSettingsInfo]
      | (Fulfilled info, s2) =>
          fst (settle (handlePackageAdd pkgs) s) = Resolved tt /\
          calls_of (handlePackageAdd pkgs) s =
          [InstallMissingPackages pkgs; FetchAtomSettingsInfo;
           SetLastUpdate (info_lastUpdate info)]
      end
  end.
Proof.
  intros pkgs s. unfold calls_of. rewrite settle_handlePackageAdd.
  repeat call_fact_all; (split; [reflexivity |]);
    cbn [fst snd]; apply skipn_trace; trace_chain; reflexivity.
Qed.

(** X3: [handlePackageRemove] uninstalls, then fetches the server's metadata,
    then stores the fetched [lastUpdate]; a failed uninstall ends it before
    the fetch and a failed fetch before anything is stored, with that error. *)
Theorem package_remove_outcomes : forall pkgs s,
  match call (UninstallPackages pkgs) s with
  | (Failed e, s1) =>
      settle (handlePackageRemove pkgs) s = (Rejected e, s1) /\
      calls_of (handlePackageRemove pkgs) s = [UninstallPackages pkgs]
  | (Fulfilled _, s1) =>
      match call FetchAtomSettingsInfo s1 with
      | (Failed e, s2) =>
          settle (handlePackageRemove pkgs) s = (Rejected e, s2) /\
          calls_of (handlePackageRemove pkgs) s =
          [UninstallPackages pkgs; FetchAtomSettingsInfo]
      | (Fulfilled info, s2) =>
          fst (settle (handlePackageRemove pkgs) s) = Resolved tt /\
          calls_of (handlePackageRemove pkgs) s =
          [UninstallPackages pkgs; FetchAtomSettingsInfo;
           SetLastUpdate (info_lastUpdate info)]
      end
  end.
Proof.
  intros pkgs s. unfold calls_of. rewrite settle_handlePackageRemove.
  repeat call_fact_all; (split; [reflexivity |]);
    cbn [fst snd]; apply skipn_trace; trace_chain; reflexivity.
Qed.

(** X4: the composite for a [NewAtomInstance] record is not all-or-nothing:
    once its first stage has resolved, a [lastUpdate] has been stored and the
    settings have been applied locally, whether or not the composite goes on
    to resolve. *)
Theorem new_instance_partial_progress : forall pkgs settings lu h s,
  handler_of (mkChange NewAtomInstance pkgs settings lu) = Some h ->
  fst (settle (handlePackageAdd pkgs) s) = Resolved tt ->
  exists v rest,
    calls_of h s =
    [InstallMissingPackages pkgs; FetchAtomSettingsInfo; SetLastUpdate v;
     ApplyPackageSettings "" settings; FetchAtomSettingsInfo] ++ rest.
Proof.
  intros pkgs settings lu h s E A.
  cbv [handler_of dispatch status packages packageSettings] in E.
  inversion E; subst h; clear E.
  rewrite settle_handlePackageAdd in A.
  unfold calls_of. unfold_promises. cbn [run].
  repeat (first [branch_step | call_fact_all]; cbn [run fst snd] in * );
    try discriminate A;
    do 2 eexists; apply skipn_trace; trace_chain; reflexivity.
Qed.

End MoreHandlers.

Lemma handler_settles_witness :
  handler_of (Scripted.change NewAtomInstance) <> None /\
  forall h, handler_of (Scripted.change NewAtomInstance) = Some h ->
    fst (settle h (Scripted.boot (Scripted.save_fails []))) = Resolved tt \/
    exists e, fst (settle h (Scripted.boot (Scripted.save_fails []))) = Rejected e.
Proof.
  split; [discriminate |].
  intros h E.
  exact (handler_settles (Scripted.change NewAtomInstance) h
           (Scripted.boot (Scripted.save_fails [])) E).
Defined.

(** The server rejects the save of the last stage: the composite is rejected
    after the first two stages have stored [lastUpdate = 7]. *)
Lemma new_instance_partial_progress_witness :
  let s := Scripted.boot (Scripted.save_fails []) in
  let h := then_ (then_ (handlePackageAdd ["minimap"])
                        (fun _ => applyPackageSettings "{tab:2}"))
                 (fun _ => backup) in
  handler_of (Scripted.change NewAtomInstance) = Some h /\
  fst (settle (handlePackageAdd ["minimap"]) s) = Resolved tt /\
  fst (settle h s) = Rejected "503" /\
  Scripted.local_lastUpdate (world (snd (settle h s))) = 7%Z /\
  exists v rest,
    calls_of h s =
    [InstallMissingPackages ["minimap"]; FetchAtomSettingsInfo; SetLastUpdate v;
     ApplyPackageSettings "" "{tab:2}"; FetchAtomSettingsInfo] ++ rest.
Proof.
  cbv zeta.
  split; [reflexivity |].
  split; [reflexivity |].
  split; [reflexivity |].
  split; [reflexivity |].
  exact (new_instance_partial_progress ["minimap"] "{tab:2}" 5%Z _
           (Scripted.boot (Scripted.save_fails [])) eq_refl eq_refl).
Defined.

(** ** The pass as a whole *)

Section MorePass.

Context `{Collaborators}.

Lemma in_series_app : forall l1 l2 s,
  in_series (l1 ++ l2) s =
  match in_series l1 s with
  | (true, s1) => in_series l2 s1
  | (false, s1) => (false, s1)
  end.
Proof.
  induction l1 as [| change rest IH]; intros l2 s; cbn [app in_series].
  - reflexivity.
  - destruct (handler_of change) as [h |]; [| reflexivity].
    destruct (settle h s) as [[[] | e |] s']; try reflexivity.
    apply IH.
Qed.

(** X5: the series stops for good at the first record that has no handler or
    whose handler does not resolve, however many records come before and
    after it: the records after it are never handled and the final callback
    of [async.eachSeries] is never called. *)
Theorem series_stops_at_first_failure :
  forall R l1 change l2 (callback : option Err -> Task R) s s1 s2,
  in_series l1 s = (true, s1) ->
  match handler_of change with
  | None => s2 = s1
  | Some h => fst (settle h s1) <> Resolved tt /\ s2 = snd (settle h s1)
  end ->
  run (eachSeries (l1 ++ change :: l2) iteratee callback) s = (None, s2).
Proof.
  intros R l1 change l2 callback s s1 s2 E1 F.
  rewrite run_eachSeries, in_series_app, E1. cbn [in_series].
  destruct (handler_of change) as [h |].
  - destruct F as [N E2]. subst s2.
    destruct (settle h s1) as [[[] | e |] s']; cbn [fst snd] in *;
      [contradiction N |..]; reflexivity.
  - subst s2. reflexivity.
Qed.

(** X6: the promise [sync] builds around [async.eachSeries] is never
    rejected: it resolves with the number of records when every handler has
    resolved and never settles otherwise, so [reject(err)] in the final
    callback is never reached. *)
Theorem changes_promise_never_rejects : forall changes s,
  match in_series changes (logged changes s) with
  | (true, s') => settle (applyChanges changes) s = (Resolved (List.length changes), s')
  | (false, s') => settle (applyChanges changes) s = (Pending, s')
  end.
Proof.
  intros changes s. unfold settle, applyChanges, logged, exec.
  destruct (0 <? List.length changes)%nat; cbn [run].
  - destruct (call (ConsoleLogChanges "Changes: " changes) s) as [[] s1]. cbn [snd].
    rewrite run_eachSeries.
    destruct (in_series changes s1) as [[|] s']; reflexivity.
  - rewrite run_eachSeries.
    destruct (in_series changes s) as [[|] s']; reflexivity.
Qed.

Lemma pass_engine : forall changes s s2 b s4,
  call GetSyncChanges (locked s) = (Fulfilled changes, s2) ->
  in_series changes (logged changes s2) = (b, s4) ->
  engine s4 = set_syncLock true (engine s).
Proof.
  intros changes s s2 b s4 D S.
  rewrite (in_series_engine _ _ _ _ S), logged_engine.
  pose proof (call_engine GetSyncChanges (locked s)) as E.
  rewrite D in E. cbn [snd] in E. rewrite E.
  unfold locked. cbn [update engine]. rewrite call_engine. reflexivity.
Qed.

Lemma run_sync_engine : forall R s,
  engine (snd (run (R := R) sync s)) =
  if syncLock (engine s) then engine s
  else
    match call GetSyncChanges (locked s) with
    | (Failed _, _) => engine s
    | (Fulfilled changes, s2) =>
        if fst (in_series changes (logged changes s2))
        then setupAutoUpdateCheck (engine s)
        else set_syncLock true (engine s)
    end.
Proof.
  intros R s. destruct (syncLock (engine s)) eqn:L.
  - rewrite (run_sync_held R s L). reflexivity.
  - rewrite (run_sync_free R s L).
    pose proof (call_engine GetSyncChanges (locked s)) as E.
    destruct (call GetSyncChanges (locked s)) as [[changes | e] s2] eqn:D;
      cbn [snd] in *.
    + pose proof (fun b s4 => pass_engine changes s s2 b s4 D) as P.
      destruct (in_series changes (logged changes s2)) as [[|] s4] eqn:S;
        cbn [fst snd]; specialize (P _ _ eq_refl).
      * cbn [update engine]. rewrite call_engine. cbn [update engine].
        rewrite notified_engine, P. apply unlock_setup_lock. exact L.
      * exact P.
    + cbn [update engine]. rewrite call_engine, E.
      unfold locked. cbn [update engine]. rewrite call_engine.
      destruct (engine s) as [l t i n]. cbn in L. subst l. reflexivity.
Qed.

(** X7: what one call of [sync] does to the engine's own state.  With the
    lock held: nothing.  Otherwise: nothing when the change detection fails
    (the lock is taken and freed); the timer is armed and the lock is free
    when every handler has resolved; the lock is left held, and nothing else
    changes, in every other case. *)
Theorem sync_engine_effect : forall R s,
  engine (snd (run (R := R) sync s)) =
  if syncLock (engine s) then engine s
  else
    match call GetSyncChanges (locked s) with
    | (Failed _, _) => engine s
    | (Fulfilled changes, s2) =>
        if fst (in_series changes (logged changes s2))
        then setupAutoUpdateCheck (engine s)
        else set_syncLock true (engine s)
    end.
Proof.
  intros R s. pose proof (run_sync_engine R s) as E.
  destruct (syncLock (engine s)); [exact E |].
  destruct (call GetSyncChanges (locked s)) as [[changes | e] s2]; exact E.
Qed.

(** X8: [sync] never cancels or replaces a timer: the live interval timers
    after the call are those before it, followed by at most one new timer,
    and an armed engine keeps its handle and gets no new timer. *)
Theorem sync_never_cancels_timer : forall R s,
  exists l,
    intervals (engine (snd (run (R := R) sync s))) = intervals (engine s) ++ l /\
    (List.length l <= 1)%nat /\
    (truthy (autocheckTimer (engine s)) = true ->
     l = [] /\
     autocheckTimer (engine (snd (run (R := R) sync s))) = autocheckTimer (engine s)).
Proof.
  intros R s. rewrite run_sync_engine.
  assert (exists l, intervals (engine s) = intervals (engine s) ++ l /\
                    (List.length l <= 1)%nat /\
                    (truthy (autocheckTimer (engine s)) = true ->
                     l = [] /\ autocheckTimer (engine s) = autocheckTimer (engine s)))
    as Same.
  { exists []. rewrite app_nil_r. cbn. auto. }
  destruct (syncLock (engine s)); [exact Same |].
  destruct (call GetSyncChanges (locked s)) as [[changes | e] s2]; [| exact Same].
  destruct (fst (in_series changes (logged changes s2))).
  - unfold setupAutoUpdateCheck.
    destruct (truthy (autocheckTimer (engine s))) eqn:T; [exact Same |].
    exists [(nextHandle (engine s), 60000%Z)]. cbn. repeat split; auto; discriminate.
  - exists []. rewrite app_nil_r. cbn. auto.
Qed.

(** X9: a pass whose change detection fails makes three calls (the two log
    lines and the detection), starts no handler, emits no notification, and
    leaves the engine exactly as it found it: lock free, timer untouched. *)
Theorem detection_failure_pass : forall R s e s2,
  syncLock (engine s) = false ->
  call GetSyncChanges (locked s) = (Failed e, s2) ->
  engine (snd (run (R := R) sync s)) = engine s /\
  trace (snd (run (R := R) sync s)) =
  trace s ++ [ConsoleLog "Sync lock"; GetSyncChanges; ConsoleLog "Error Unlock sync"].
Proof.
  intros R s e s2 L D. split.
  - rewrite run_sync_engine, L, D. reflexivity.
  - rewrite (run_sync_free R s L), D. cbn [snd update trace].
    rewrite call_trace.
    pose proof (call_trace GetSyncChanges (locked s)) as T.
    rewrite D in T. cbn [snd] in T. rewrite T.
    unfold locked. cbn [update trace]. rewrite call_trace, <- !app_assoc.
    reflexivity.
Qed.

Lemma handler_calls : forall change h s,
  handler_of change = Some h ->
  exists l, trace (snd (settle h s)) = trace s ++ l /\
            forallb handler_op l = true.
Proof.
  intros [st pkgs settings lu] h s.
  destruct st; cbv [handler_of dispatch status packages packageSettings lastUpdate];
    intros E; inversion E; subst h; clear E;
    unfold_promises; cbn [run];
    repeat (first [branch_step | call_fact_all]; cbn [run fst snd] in * );
    eexists; (split; [trace_chain; reflexivity | reflexivity]).
Qed.

Lemma in_series_calls : forall changes s b s',
  in_series changes s = (b, s') ->
  exists l, trace s' = trace s ++ l /\ forallb handler_op l = true.
Proof.
  induction changes as [| change rest IH]; intros s b s' E; cbn [in_series] in E.
  - inversion E; subst. exists []. rewrite app_nil_r. auto.
  - destruct (handler_of change) as [h |] eqn:Eh.
    + destruct (handler_calls change h s Eh) as [l1 [T1 F1]].
      destruct (settle h s) as [[[] | e |] s1]; cbn [snd] in T1.
      * destruct (IH _ _ _ E) as [l2 [T2 F2]].
        exists (l1 ++ l2). rewrite T2, T1, <- app_assoc, forallb_app, F1, F2. auto.
      * inversion E; subst. exists l1. auto.
      * inversion E; subst. exists l1. auto.
    + inversion E; subst. exists []. rewrite app_nil_r. auto.
Qed.

Lemma handler_op_filters : forall l,
  forallb handler_op l = true ->
  filter is_detect l = [] /\ filter is_notify l = [].
Proof.
  induction l as [| c l IH]; cbn [forallb filter]; intros F; [auto |].
  apply andb_prop in F. destruct F as [Fc Fl]. destruct (IH Fl) as [D N].
  destruct c; cbn in Fc; try discriminate Fc; cbn; auto.
Qed.

(** X10: one pass asks the change detector exactly once, at its start, and
    emits at most one success notification, however many records it handles
    and however the handlers end. *)
Theorem pass_detects_once_notifies_at_most_once : forall R s,
  syncLock (engine s) = false ->
  exists l,
    trace (snd (run (R := R) sync s)) =
    trace s ++ ConsoleLog "Sync lock" :: GetSyncChanges :: l /\
    filter is_detect l = [] /\
    (List.length (filter is_notify l) <= 1)%nat.
Proof.
  intros R s L. rewrite (run_sync_free R s L).
  pose proof (call_trace GetSyncChanges (locked s)) as T.
  assert (trace (locked s) = trace s ++ [ConsoleLog "Sync lock"]) as T0.
  { unfold locked. cbn [update trace]. apply call_trace. }
  rewrite T0, <- app_assoc in T. cbn [app] in T.
  destruct (call GetSyncChanges (locked s)) as [[changes | e] s2]; cbn [snd] in T.
  - assert (exists l0, trace (logged changes s2) = trace s2 ++ l0 /\
                       filter is_detect l0 = [] /\ filter is_notify l0 = [])
      as [l0 [T1 [D0 N0]]].
    { unfold logged. destruct (0 <? List.length changes)%nat.
      - exists [ConsoleLogChanges "Changes: " changes]. rewrite call_trace. auto.
      - exists []. rewrite app_nil_r. auto. }
    destruct (in_series changes (logged changes s2)) as [b s4] eqn:S.
    destruct (in_series_calls _ _ _ _ S) as [l1 [T2 F]].
    destruct (handler_op_filters l1 F) as [D1 N1].
    destruct b.
    + exists (l0 ++ l1 ++
              (if (0 <? List.length changes)%nat
               then [AddSuccess SYNC_SUCCESS_MESSAGE] else []) ++
              [ConsoleLog "Unlock sync"]).
      cbn [snd update trace]. rewrite call_trace. cbn [update trace].
      rewrite notified_trace, T2, T1, T, <- !app_assoc. cbn [app].
      split; [reflexivity |].
      rewrite !filter_app, D0, D1, N0, N1.
      destruct (0 <? List.length changes)%nat; cbn; split; auto.
    + exists (l0 ++ l1). cbn [snd]. rewrite T2, T1, T, <- !app_assoc. cbn [app].
      split; [reflexivity |].
      rewrite !filter_app, D0, D1, N0, N1. cbn. auto.
  - exists [ConsoleLog "Error Unlock sync"]. cbn [snd update trace].
    rewrite call_trace, T, <- app_assoc. cbn. auto.
Qed.

(** X11: a lock that is held while no thread is waiting is held for ever:
    whatever happens to the instance afterwards (commands, timer ticks,
    deactivation), no call is made, no handler runs and the lock stays held.
    This is the state a stalled pass leaves. *)
Theorem held_lock_without_pass_is_permanent : forall evs sys,
  waiting sys = [] ->
  syncLock (engine (state sys)) = true ->
  waiting (steps sys evs) = [] /\
  syncLock (engine (state (steps sys evs))) = true /\
  world (state (steps sys evs)) = world (state sys) /\
  trace (state (steps sys evs)) = trace (state sys).
Proof.
  induction evs as [| ev evs IH]; intros sys W L; cbn [steps fold_left].
  - auto.
  - assert (spawn sync sys = sys) as E.
    { unfold spawn. rewrite (advance_sync_held _ _ L), app_nil_r.
      destruct sys; reflexivity. }
    assert (waiting (step sys ev) = [] /\
            syncLock (engine (state (step sys ev))) = true /\
            world (state (step sys ev)) = world (state sys) /\
            trace (state (step sys ev)) = trace (state sys)) as [W' [L' [Wo Tr]]].
    { destruct ev as [| id | | i]; cbn [step].
      - rewrite E. auto.
      - destruct (existsb _ _); [rewrite E |]; auto.
      - cbn [waiting state update engine world trace]. repeat split; auto.
        unfold stop, stopAutoUpdateCheck, set_autocheckTimer. cbn [syncLock].
        destruct (autocheckTimer (engine (state sys))); exact L.
      - rewrite W. destruct i; cbn [nth_error]; auto. }
    destruct (IH (step sys ev) W' L') as [W2 [L2 [Wo2 Tr2]]].
    unfold steps in *. rewrite Wo2, Tr2, Wo, Tr. auto.
Qed.

End MorePass.

(** ** The timer and the event loop *)

Ltac inv_step :=
  cbn [engine_inv];
  first
    [ assumption
    | match goal with
      | |- engine_inv _ (match ?r with _ => _ end) => destruct r
      | |- engine_inv _ (if ?b then _ else _) => destruct b
      | |- _ /\ _ => split
      | |- forall _, _ => intro
      | |- True => exact I
      | H : forall a, engine_inv _ (?k a) |- engine_inv _ (?k _) => apply H
      end
    | solve [auto] ].

Ltac inv_tac := repeat inv_step.

Section MoreLoop.

Context `{Collaborators}.

Variable P : Engine -> Prop.
Hypothesis P_lock : forall b e, P e -> P (set_syncLock b e).
Hypothesis P_setup : forall e, P e -> P (setupAutoUpdateCheck e).
Hypothesis P_stop : forall e, P e -> P (stop e).

Lemma inv_safe_then : forall A B R (p : Promise A R) (f : A -> Promise B R),
  inv_safe P p -> (forall a, inv_safe P (f a)) -> inv_safe P (then_ p f).
Proof.
  intros A B R p f Hp Hf resolve reject Hres Hrej.
  unfold then_. apply Hp; [| exact Hrej].
  intros a. apply Hf; assumption.
Qed.

Lemma inv_safe_setLastUpdate : forall R v, inv_safe P (@setLastUpdate R v).
Proof. intros R v resolve reject Hres Hrej. unfold setLastUpdate. inv_tac. Qed.

Lemma inv_safe_fetch : forall R, inv_safe P (@fetchAtomSettingsInfo R).
Proof.
  intros R resolve reject Hres Hrej. unfold fetchAtomSettingsInfo, answered. inv_tac.
Qed.

Lemma inv_safe_handlePackageAdd : forall R pkgs, inv_safe P (@handlePackageAdd R pkgs).
Proof.
  intros R pkgs. unfold handlePackageAdd.
  apply inv_safe_then; [apply inv_safe_then |]; intros.
  - intros resolve reject Hres Hrej. unfold installMissingPackages, answered. inv_tac.
  - apply inv_safe_fetch.
  - apply inv_safe_setLastUpdate.
Qed.

Lemma inv_safe_handlePackageRemove : forall R pkgs,
  inv_safe P (@handlePackageRemove R pkgs).
Proof.
  intros R pkgs. unfold handlePackageRemove.
  apply inv_safe_then; [apply inv_safe_then |]; intros.
  - intros resolve reject Hres Hrej. unfold uninstallPackages, answered. inv_tac.
  - apply inv_safe_fetch.
  - apply inv_safe_setLastUpdate.
Qed.

Lemma inv_safe_applyPackageSettings : forall R settings,
  inv_safe P (@applyPackageSettings R settings).
Proof.
  intros R settings resolve reject Hres Hrej.
  unfold applyPackageSettings, exec. cbn [engine_inv]. intros _.
  apply inv_safe_then; try assumption.
  - apply inv_safe_fetch.
  - intros a. apply inv_safe_setLastUpdate.
Qed.

Lemma inv_safe_backup : forall R, inv_safe P (@backup R).
Proof.
  intros R resolve reject Hres Hrej.
  cbv [backup discard catch_ then_ saveAtomSettings answered jump exec]. inv_tac.
Qed.

Lemma inv_safe_dispatch : forall R change func,
  @dispatch R change = Some func -> inv_safe P (func tt).
Proof.
  intros R [st pkgs settings lu] func.
  destruct st; cbv [dispatch status packages packageSettings lastUpdate call_with_extra];
    intros E; inversion E; subst func; clear E.
  all: try apply inv_safe_backup.
  all: try apply inv_safe_handlePackageAdd.
  all: try apply inv_safe_handlePackageRemove.
  all: try apply inv_safe_applyPackageSettings.
  apply inv_safe_then; [apply inv_safe_then |]; intros.
  - apply inv_safe_handlePackageAdd.
  - apply inv_safe_applyPackageSettings.
  - apply inv_safe_backup.
Qed.

Lemma engine_inv_eachSeries : forall R changes (callback : option Err -> Task R),
  engine_inv P (callback None) ->
  engine_inv P (eachSeries changes iteratee callback).
Proof.
  induction changes as [| change rest IH]; intros callback Hcb; cbn [eachSeries].
  - exact Hcb.
  - unfold iteratee. destruct (dispatch change) as [func |] eqn:D; [| exact I].
    unfold discard, catch_, then_, jump, throw.
    apply (inv_safe_dispatch R change func D).
    + intros _. apply IH. exact Hcb.
    + intros err. exact I.
Qed.

Lemma engine_inv_sync : forall R, engine_inv P (@sync R).
Proof.
  intros R. cbv [sync discard catch_ then_ getSyncChanges answered exec jump].
  cbn [engine_inv]. intros e Pe. destruct (syncLock e); [exact I |].
  cbn [engine_inv]. intros _. split; [intros e0; apply P_lock |].
  intros [changes | err].
  - unfold applyChanges, exec.
    destruct (0 <? List.length changes)%nat; cbn [engine_inv]; [intros _ |];
      apply engine_inv_eachSeries; inv_tac.
  - inv_tac.
Qed.

Lemma advance_engine_inv : forall R (t : Task R) s,
  engine_inv P t -> P (engine s) ->
  P (engine (fst (advance t s))) /\
  match snd (advance t s) with
  | Some t' => engine_inv P t'
  | None => True
  end.
Proof.
  induction t as [r | | c k IH | k IH | f k IH]; intros s K Ps; cbn [advance].
  - auto.
  - auto.
  - cbn [engine_inv] in K. destruct (suspends c).
    + cbn [fst snd]. auto.
    + pose proof (call_engine c s) as E.
      destruct (call c s) as [r s1]. cbn [snd] in E.
      apply IH; [apply K | rewrite E; exact Ps].
  - apply IH; [apply K; exact Ps | exact Ps].
  - destruct K as [Kf Kk]. apply IH; [exact Kk |]. apply Kf. exact Ps.
Qed.

Lemma spawn_loop_inv : forall t sys,
  engine_inv P t -> loop_inv P sys -> loop_inv P (spawn t sys).
Proof.
  intros t sys K [Ps W]. unfold spawn, loop_inv.
  destruct (advance_engine_inv _ t (state sys) K Ps) as [Ps' K'].
  destruct (advance t (state sys)) as [s' rest]. cbn [fst snd state waiting] in *.
  split; [exact Ps' |].
  apply Forall_app. split; [exact W |].
  destruct rest; [constructor; [exact K' | constructor] | constructor].
Qed.

Lemma Forall_remove_nth : forall X (Q : X -> Prop) i l,
  Forall Q l -> Forall Q (remove_nth i l).
Proof.
  intros X Q i l F. unfold remove_nth. apply Forall_app. split.
  - rewrite Forall_forall in *. intros x I. apply F.
    rewrite <- (firstn_skipn i l). apply in_or_app. left. exact I.
  - rewrite Forall_forall in *. intros x I. apply F.
    rewrite <- (firstn_skipn (S i) l). apply in_or_app. right. exact I.
Qed.

Lemma step_loop_inv : forall sys ev, loop_inv P sys -> loop_inv P (step sys ev).
Proof.
  intros sys ev Inv. destruct ev as [| id | | i]; cbn [step].
  - apply spawn_loop_inv; [apply engine_inv_sync | exact Inv].
  - destruct (existsb _ _); [| exact Inv].
    apply spawn_loop_inv; [apply engine_inv_sync | exact Inv].
  - destruct Inv as [Ps W]. split; [| exact W].
    cbn [state update engine]. apply P_stop. exact Ps.
  - destruct (nth_error (waiting sys) i) as [t |] eqn:N; [| exact Inv].
    destruct t as [r | | c k | k | f k]; try exact Inv.
    destruct Inv as [Ps W].
    assert (engine_inv P (Call c k)) as K.
    { rewrite Forall_forall in W. apply W. eapply nth_error_In. exact N. }
    pose proof (call_engine c (state sys)) as E.
    destruct (call c (state sys)) as [r s1]. cbn [snd] in E.
    apply spawn_loop_inv; [apply K |].
    split; cbn [state waiting]; [rewrite E; exact Ps |].
    apply Forall_remove_nth. exact W.
Qed.

Lemma steps_loop_inv : forall evs sys, loop_inv P sys -> loop_inv P (steps sys evs).
Proof.
  induction evs as [| ev evs IH]; intros sys Inv; cbn [steps fold_left].
  - exact Inv.
  - apply IH. apply step_loop_inv. exact Inv.
Qed.

End MoreLoop.

Section LoopProperties.

Context `{Collaborators}.

Lemma steps_timer_ok : forall s0 evs,
  timer_ok (engine s0) ->
  timer_ok (engine (state (steps (mkSystem s0 []) evs))).
Proof.
  intros s0 evs T0.
  assert (loop_inv timer_ok (steps (mkSystem s0 []) evs)) as [T _].
  { apply steps_loop_inv.
    - intros b e. apply timer_ok_lock.
    - apply timer_ok_setup.
    - apply timer_ok_stop.
    - split; [exact T0 | constructor]. }
  exact T.
Qed.

(** X12: the engine never leaks a timer.  From an instance whose timers are
    as [autocheckTimer] says, whatever the sequence of commands, ticks,
    deactivations and completions, at most one interval timer is alive and it
    is the one whose handle [autocheckTimer] holds. *)
Theorem at_most_one_timer : forall s0 evs,
  timer_ok (engine s0) ->
  timer_ok (engine (state (steps (mkSystem s0 []) evs))) /\
  (List.length (intervals (engine (state (steps (mkSystem s0 []) evs)))) <= 1)%nat.
Proof.
  intros s0 evs T0.
  pose proof (steps_timer_ok s0 evs T0) as T.
  split; [exact T |].
  unfold timer_ok in T. rewrite T.
  destruct (autocheckTimer (engine (state (steps (mkSystem s0 []) evs)))); cbn; lia.
Qed.

(** X13: once the package is deactivated no timer is alive, so no tick
    starts a pass: a tick right after a deactivation changes nothing. *)
Theorem deactivate_silences_ticks : forall s0 evs id,
  timer_ok (engine s0) ->
  let sys := steps (mkSystem s0 []) (evs ++ [Deactivate]) in
  intervals (engine (state sys)) = [] /\
  truthy (autocheckTimer (engine (state sys))) = false /\
  step sys (Tick id) = sys.
Proof.
  intros s0 evs id T0. cbv zeta.
  unfold steps. rewrite fold_left_app. cbn [fold_left step].
  pose proof (steps_timer_ok s0 evs T0) as T.
  fold (steps (mkSystem s0 []) evs).
  set (sys := steps (mkSystem s0 []) evs) in *.
  cbn [state update engine].
  assert (intervals (stop (engine (state sys))) = []) as I0.
  { unfold timer_ok in T. unfold stop, stopAutoUpdateCheck. cbn.
    destruct (autocheckTimer (engine (state sys))); cbn; rewrite T; cbn;
      rewrite ?Pos.eqb_refl; reflexivity. }
  split; [exact I0 |]. split; [reflexivity |].
  rewrite I0. reflexivity.
Qed.

(** X14: arming and disarming compose as expected on an engine whose timers
    are as [autocheckTimer] says: disarming after arming leaves no timer
    alive, and arming after disarming starts exactly one timer, under a
    handle never used before. *)
Theorem arm_disarm_compose : forall e,
  timer_ok e ->
  intervals (stopAutoUpdateCheck (setupAutoUpdateCheck e)) = [] /\
  autocheckTimer (stopAutoUpdateCheck (setupAutoUpdateCheck e)) = JsFalse /\
  intervals (setupAutoUpdateCheck (stopAutoUpdateCheck e)) = [(nextHandle e, 60000%Z)] /\
  autocheckTimer (setupAutoUpdateCheck (stopAutoUpdateCheck e)) =
    TimerHandle (nextHandle e) /\
  nextHandle (setupAutoUpdateCheck (stopAutoUpdateCheck e)) = Pos.succ (nextHandle e).
Proof.
  intros [l t i n]. unfold timer_ok, setupAutoUpdateCheck, stopAutoUpdateCheck.
  cbn. intros E. subst i.
  destruct t; cbn; rewrite ?Pos.eqb_refl; cbn; repeat split; reflexivity.
Qed.

Lemma drive : forall (t : Task Empty_set) s,
  exists n,
    steps (spawn t (mkSystem s [])) (repeat (Complete 0) n) =
    mkSystem (snd (run t s)) [].
Proof.
  induction t as [r | | c k IH | k IH | f k IH]; intros s.
  - destruct r.
  - exists 0%nat. reflexivity.
  - destruct (suspends c) eqn:Sc.
    + cbn [run]. destruct (call c s) as [r s1] eqn:C.
      destruct (IH r s1) as [n Hn]. exists (S n).
      unfold spawn. cbn [advance state waiting]. rewrite Sc. cbn [app repeat].
      unfold steps. cbn [fold_left step waiting nth_error state]. rewrite C.
      exact Hn.
    + cbn [run]. destruct (call c s) as [r s1] eqn:C.
      destruct (IH r s1) as [n Hn]. exists n.
      unfold spawn in *. cbn [advance state waiting] in *. rewrite Sc, C.
      exact Hn.
  - destruct (IH (engine s) s) as [n Hn]. exists n. exact Hn.
  - destruct (IH (update f s)) as [n Hn]. exists n. exact Hn.
Qed.


Lemma advance_sync_free :
  exists k,
    forall s, syncLock (engine s) = false ->
      advance (@sync Empty_set) s = (locked s, Some (Call GetSyncChanges k)).
Proof.
  eexists. intros s L.
  cbv [sync discard catch_ then_ getSyncChanges exec locked].
  cbn [advance]. rewrite L. cbn [advance suspends].
  destruct (call (ConsoleLog "Sync lock") s) as [[] s1].
  cbn [advance suspends snd]. reflexivity.
Qed.


Lemma call_update : forall c f s,
  call c (update f s) = (fst (call c s), update f (snd (call c s))).
Proof.
  intros c f s. unfold call, update. cbn [world engine trace].
  destruct (perform c (world s)); reflexivity.
Qed.

Lemma stop_syncLock : forall e, syncLock (stop e) = syncLock e.
Proof.
  intros e. unfold stop, stopAutoUpdateCheck, set_autocheckTimer. cbn [syncLock].
  destruct (autocheckTimer e); reflexivity.
Qed.

Lemma locked_stop : forall s, locked (update stop s) = update stop (locked s).
Proof.
  intros s. unfold locked. rewrite call_update. cbn [snd].
  unfold update. cbn [engine world trace]. f_equal.
  destruct (engine (snd (call (ConsoleLog "Sync lock") s))) as [l t i n].
  destruct t; reflexivity.
Qed.

(** X17: deactivating while a pass is in flight does not end auto-sync: when
    that pass goes on to succeed it arms the timer again, so the deactivated
    package keeps polling. *)
Theorem pass_in_flight_rearms_after_deactivate : forall s changes s2,
  syncLock (engine s) = false ->
  call GetSyncChanges (locked (update stop s)) = (Fulfilled changes, s2) ->
  fst (in_series changes (logged changes s2)) = true ->
  exists n,
    let sys := steps (mkSystem s []) (Command :: Deactivate :: repeat (Complete 0) n) in
    waiting sys = [] /\
    engine (state sys) = setupAutoUpdateCheck (stop (engine s)) /\
    truthy (autocheckTimer (engine (state sys))) = true /\
    List.length (intervals (engine (state sys))) = S (List.length (intervals (stop (engine s)))).
Proof.
  intros s changes s2 L D S.
  destruct advance_sync_free as [k A].
  assert (syncLock (engine (update stop s)) = false) as L'.
  { cbn [update engine]. rewrite stop_syncLock. exact L. }
  destruct (drive (Call GetSyncChanges k) (locked (update stop s))) as [n Hn].
  exists n. cbv zeta.
  assert (spawn sync (mkSystem s []) = mkSystem (locked s) [Call GetSyncChanges k]) as Sp.
  { unfold spawn. cbn [state waiting]. rewrite (A s L). reflexivity. }
  assert (spawn (Call GetSyncChanges k) (mkSystem (locked (update stop s)) []) =
          mkSystem (locked (update stop s)) [Call GetSyncChanges k]) as Sp'.
  { reflexivity. }
  rewrite Sp' in Hn.
  unfold steps in *. cbn [fold_left step]. rewrite Sp. cbn [state waiting].
  rewrite <- locked_stop, Hn. cbn [waiting state].
  assert (snd (run (Call GetSyncChanges k) (locked (update stop s))) =
          snd (run (R := Empty_set) sync (update stop s))) as E.
  { rewrite (run_advance _ sync (update stop s)), (A _ L'). reflexivity. }
  rewrite E, run_sync_engine, L', D, S. cbn [update engine].
  split; [reflexivity |]. split; [reflexivity |].
  split; [apply setup_truthy |].
  unfold setupAutoUpdateCheck, stop, stopAutoUpdateCheck. cbn.
  rewrite length_app. cbn. lia.
Qed.

End LoopProperties.

(** ** The further properties at work on the scripted collaborators *)

Lemma series_stops_at_first_failure_witness :
  let c1 := Scripted.change AddPackagesFromServer in
  let c2 := Scripted.change (OtherStatus "Renamed") in
  let c3 := Scripted.change FirstTimeConnect in
  let s := Scripted.boot (Scripted.healthy []) in
  let s1 := snd (settle (handlePackageAdd ["minimap"]) s) in
  in_series [c1] s = (true, s1) /\
  handler_of c2 = None /\
  run (eachSeries ([c1] ++ c2 :: [c3; c3]) iteratee (fun _ => Ret tt)) s = (None, s1).
Proof.
  cbv zeta.
  split; [reflexivity |].
  split; [reflexivity |].
  exact (series_stops_at_first_failure unit
           [Scripted.change AddPackagesFromServer]
           (Scripted.change (OtherStatus "Renamed"))
           [Scripted.change FirstTimeConnect; Scripted.change FirstTimeConnect]
           (fun _ => Ret tt)
           (Scripted.boot (Scripted.healthy [])) _ _ eq_refl eq_refl).
Defined.

Lemma sync_never_cancels_timer_witness :
  let s := @mkState Scripted.collaborators (setupAutoUpdateCheck fresh_engine)
                    (Scripted.healthy [Scripted.change FirstTimeConnect]) [] in
  truthy (autocheckTimer (engine s)) = true /\
  exists l,
    intervals (engine (snd (run (R := unit) sync s))) = intervals (engine s) ++ l /\
    (List.length l <= 1)%nat /\
    (truthy (autocheckTimer (engine s)) = true ->
     l = [] /\
     autocheckTimer (engine (snd (run (R := unit) sync s))) = autocheckTimer (engine s)).
Proof.
  cbv zeta.
  split; [reflexivity |].
  exact (sync_never_cancels_timer unit
           (@mkState Scripted.collaborators (setupAutoUpdateCheck fresh_engine)
                     (Scripted.healthy [Scripted.change FirstTimeConnect]) [])).
Defined.

Lemma detection_failure_pass_witness :
  let s := Scripted.boot Scripted.detection_fails in
  syncLock (engine s) = false /\
  fst (call GetSyncChanges (locked s)) = Failed "offline" /\
  engine (snd (run (R := unit) sync s)) = engine s /\
  trace (snd (run (R := unit) sync s)) =
  trace s ++ [ConsoleLog "Sync lock"; GetSyncChanges; ConsoleLog "Error Unlock sync"].
Proof.
  cbv zeta.
  split; [reflexivity |].
  split; [reflexivity |].
  exact (detection_failure_pass unit (Scripted.boot Scripted.detection_fails)
           "offline" _ eq_refl eq_refl).
Defined.

Lemma pass_detects_once_notifies_at_most_once_witness :
  let s := Scripted.boot
             (Scripted.healthy [Scripted.change AddPackagesFromServer;
                                Scripted.change FirstTimeConnect]) in
  syncLock (engine s) = false /\
  exists l,
    trace (snd (run (R := unit) sync s)) =
    trace s ++ ConsoleLog "Sync lock" :: GetSyncChanges :: l /\
    filter is_detect l = [] /\
    (List.length (filter is_notify l) <= 1)%nat.
Proof.
  cbv zeta.
  split; [reflexivity |].
  exact (pass_detects_once_notifies_at_most_once unit
           (Scripted.boot
              (Scripted.healthy [Scripted.change AddPackagesFromServer;
                                 Scripted.change FirstTimeConnect]))
           eq_refl).
Defined.

(** The state a rejected backup leaves: nothing that happens later frees the
    lock. *)
Lemma held_lock_without_pass_is_permanent_witness :
  let s0 := Scripted.boot (Scripted.save_fails [Scripted.change FirstTimeConnect]) in
  let sys := steps (mkSystem s0 []) [Command; Complete 0; Complete 0] in
  let evs := [Command; Tick 1; Deactivate; Complete 0; Command] in
  waiting sys = [] /\
  syncLock (engine (state sys)) = true /\
  waiting (steps sys evs) = [] /\
  syncLock (engine (state (steps sys evs))) = true /\
  world (state (steps sys evs)) = world (state sys) /\
  trace (state (steps sys evs)) = trace (state sys).
Proof.
  cbv zeta.
  split; [reflexivity |].
  split; [reflexivity |].
  exact (held_lock_without_pass_is_permanent
           [Command; Tick 1; Deactivate; Complete 0; Command]
           (steps (mkSystem
                     (Scripted.boot (Scripted.save_fails [Scripted.change FirstTimeConnect]))
                     [])
                  [Command; Complete 0; Complete 0])
           eq_refl eq_refl).
Defined.

Lemma at_most_one_timer_witness :
  let s0 := Scripted.boot (Scripted.healthy []) in
  let evs := [Command; Complete 0; Deactivate; Command; Complete 0; Tick 2; Complete 0] in
  timer_ok (engine s0) /\
  timer_ok (engine (state (steps (mkSystem s0 []) evs))) /\
  (List.length (intervals (engine (state (steps (mkSystem s0 []) evs)))) <= 1)%nat.
Proof.
  cbv zeta.
  split; [reflexivity |].
  exact (at_most_one_timer (Scripted.boot (Scripted.healthy []))
           [Command; Complete 0; Deactivate; Command; Complete 0; Tick 2; Complete 0]
           eq_refl).
Defined.

Lemma deactivate_silences_ticks_witness :
  let s0 := Scripted.boot (Scripted.healthy []) in
  let sys := steps (mkSystem s0 []) ([Command; Complete 0] ++ [Deactivate]) in
  timer_ok (engine s0) /\
  intervals (engine (state sys)) = [] /\
  truthy (autocheckTimer (engine (state sys))) = false /\
  step sys (Tick 1) = sys.
Proof.
  cbv zeta.
  split; [reflexivity |].
  exact (deactivate_silences_ticks (Scripted.boot (Scripted.healthy []))
           [Command; Complete 0] 1%positive eq_refl).
Defined.

Lemma arm_disarm_compose_witness :
  let e := setupAutoUpdateCheck fresh_engine in
  timer_ok e /\
  intervals (stopAutoUpdateCheck (setupAutoUpdateCheck e)) = [] /\
  autocheckTimer (stopAutoUpdateCheck (setupAutoUpdateCheck e)) = JsFalse /\
  intervals (setupAutoUpdateCheck (stopAutoUpdateCheck e)) = [(2%positive, 60000%Z)] /\
  autocheckTimer (setupAutoUpdateCheck (stopAutoUpdateCheck e)) = TimerHandle 2 /\
  nextHandle (setupAutoUpdateCheck (stopAutoUpdateCheck e)) = 3%positive.
Proof.
  cbv zeta.
  split; [reflexivity |].
  exact (arm_disarm_compose (setupAutoUpdateCheck fresh_engine) eq_refl).
Defined.

(** A pass in flight while the package is deactivated: it ends with a new
    timer alive. *)
Lemma pass_in_flight_rearms_after_deactivate_witness :
  let s := @mkState Scripted.collaborators (setupAutoUpdateCheck fresh_engine)
                    (Scripted.healthy [Scripted.change FirstTimeConnect]) [] in
  syncLock (engine s) = false /\
  intervals (stop (engine s)) = [] /\
  exists n,
    let sys := steps (mkSystem s []) (Command :: Deactivate :: repeat (Complete 0) n) in
    waiting sys = [] /\
    engine (state sys) = setupAutoUpdateCheck (stop (engine s)) /\
    truthy (autocheckTimer (engine (state sys))) = true /\
    List.length (intervals (engine (state sys))) = S (List.length (intervals (stop (engine s)))).
Proof.
  cbv zeta.
  split; [reflexivity |].
  split; [reflexivity |].
  exact (pass_in_flight_rearms_after_deactivate
           (@mkState Scripted.collaborators (setupAutoUpdateCheck fresh_engine)
                     (Scripted.healthy [Scripted.change FirstTimeConnect]) [])
           [Scripted.change FirstTimeConnect] _ eq_refl eq_refl eq_refl).
Defined.
